(** * brainglobe_registration: the elastix scripting layer and the
      moving-image adjustment form

    A shallow embedding of

    - [brainglobe_registration/elastix/register.py]
      ([setup_parameter_object], [run_registration]),
    - the builder of the older, flag-driven [register.py] (module
      [Legacy]),
    - [widgets/adjust_moving_image_view.py] (module [View]),

    together with the properties the specification states about them.

    The registration engine (ITK elastix / transformix), [tifffile],
    [os.unlink] and the Qt spin boxes are collaborators of the code, not
    part of it.  The engine is an abstract record of functions; the few
    container methods of [itk.ParameterObject] the code calls are written
    out on [list (gmap string (list string))]. *)

From Stdlib Require Import ZArith List Lia.
From stdpp Require Import base option list gmap fin_maps strings.

Open Scope string_scope.

(** ** Python values and exceptions *)

(** A [pathlib.Path] is the sequence of its parts; [p / name] appends one. *)
Abbreviation Path := (list string).

Definition path_div (p : Path) (name : string) : Path := (p ++ [name])%list.
Infix "//" := path_div (at level 40, left associativity).

(** The exceptions that occur in the code, and the three kinds of the
    specification's taxonomy (which the code never constructs). *)
Inductive exn : Type :=
| ItkError (diagnostic : string)
| AttributeError (message : string)
| ValueError (message : string)
| IndexError (message : string)
| FileNotFoundError (path : Path)
| ConfigurationError (diagnostic : string)
| RegistrationError (diagnostic : string)
| InversionError (diagnostic : string).

Inductive result (A : Type) : Type :=
| Ok (a : A)
| Raise (e : exn).
Arguments Ok {A} a.
Arguments Raise {A} e.

Definition result_bind {A B} (r : result A) (k : A → result B) : result B :=
  match r with
  | Ok a => k a
  | Raise e => Raise e
  end.

Notation "'try' x <- r ; k" := (result_bind r (fun x => k))
  (at level 60, x name, r at next level, right associativity).

(** What a call into the engine gives back: a value, or an exception of
    the wrapper carrying the engine's diagnostic text. *)
Inductive engine_result (A : Type) : Type :=
| Done (a : A)
| Throws (diagnostic : string).
Arguments Done {A} a.
Arguments Throws {A} diagnostic.

Global Instance exn_eq_dec : EqDecision exn.
Proof. solve_decision. Defined.

Global Instance result_eq_dec {A} `{EqDecision A} : EqDecision (result A).
Proof. solve_decision. Defined.

Global Instance engine_result_eq_dec {A} `{EqDecision A} :
  EqDecision (engine_result A).
Proof. solve_decision. Defined.

Definition from_engine {A} (r : engine_result A) : result A :=
  match r with
  | Done a => Ok a
  | Throws d => Raise (ItkError d)
  end.

(** ** [itk.ParameterObject]

    A parameter map is a [std::map<std::string, std::vector<std::string>>];
    a parameter object holds a vector of them, one per stage. *)
Abbreviation ParameterValue := (list string).
Abbreviation ParameterMap := (gmap string (list string)).
Abbreviation ParameterObject := (list (gmap string (list string))).

(** [itk.ParameterObject.New()] *)
Definition New : ParameterObject := [].

(** [parameter_object.AddParameterMap(parameter_map)] *)
Definition AddParameterMap (parameter_map : ParameterMap)
    (parameter_object : ParameterObject) : ParameterObject :=
  (parameter_object ++ [parameter_map])%list.

Definition GetNumberOfParameterMaps (parameter_object : ParameterObject) : nat :=
  length parameter_object.

(** [parameter_object.GetParameterMap(index)] *)
Definition GetParameterMap (index : nat) (parameter_object : ParameterObject)
    : result ParameterMap :=
  match parameter_object !! index with
  | Some m => Ok m
  | None => Raise (IndexError "parameter map index out of range")
  end.

(** [parameter_object.GetParameter(index, key)]: the value vector stored
    under [key] in map [index], which Python sees as a tuple; empty when
    the key is absent. *)
Definition GetParameter (index : nat) (key : string)
    (parameter_object : ParameterObject) : result ParameterValue :=
  match parameter_object !! index with
  | Some m => Ok (default [] (m !! key))
  | None => Raise (IndexError "parameter map index out of range")
  end.

(** [parameter_object.SetParameter(key, value)] without an index: the key
    is set in every map. *)
Definition SetParameter (key : string) (value : ParameterValue)
    (parameter_object : ParameterObject) : ParameterObject :=
  (λ m : ParameterMap, <[key := value]> m) <$> parameter_object.

(** ** Specs handed to the builder

    A spec is a [(transform_type, parameter_dict)] tuple.  Python does not
    enforce the [dict] annotation, so the second component may be [None]. *)
Abbreviation PyDict := (gmap string (list string)).
Definition TransformSpec : Type := string * option (gmap string (list string)).

(** [parameter_dict.items()] *)
Definition dict_items (parameter_dict : option PyDict)
    : result (list (string * list string)) :=
  match parameter_dict with
  | Some d => Ok (map_to_list d)
  | None => Raise (AttributeError "'NoneType' object has no attribute 'items'")
  end.

(** [for k, v in items: parameter_map[k] = v] *)
Definition assign_items (parameter_map : ParameterMap)
    (items : list (string * list string)) : ParameterMap :=
  foldl (λ m kv, <[kv.1 := kv.2]> m) parameter_map items.

(** [parameter_map.clear()] *)
Definition clear (parameter_map : ParameterMap) : ParameterMap := ∅.

(** Specs with an explicit option map each. *)
Definition explicit (specs : list (string * PyDict)) : list TransformSpec :=
  (λ s, (s.1, Some s.2)) <$> specs.

Section Builder.

(** [parameter_object.GetDefaultParameterMap(transform_type)]: the
    engine's default map of a kind, or its complaint when it documents
    no such kind. *)
Variable GetDefaultParameterMap : string → engine_result ParameterMap.

(** One turn of the loop of [setup_parameter_object]. *)
Definition setup_stage (parameter_object : ParameterObject)
    (spec : TransformSpec) : result ParameterObject :=
  let '(transform_type, parameter_dict) := spec in
  try parameter_map <- from_engine (GetDefaultParameterMap transform_type);
  let parameter_map := clear parameter_map in
  try items <- dict_items parameter_dict;
  let parameter_map := assign_items parameter_map items in
  Ok (AddParameterMap parameter_map parameter_object).

Fixpoint setup_loop (parameter_object : ParameterObject)
    (parameter_lists : list TransformSpec) : result ParameterObject :=
  match parameter_lists with
  | [] => Ok parameter_object
  | spec :: rest =>
      try parameter_object <- setup_stage parameter_object spec;
      setup_loop parameter_object rest
  end.

Definition setup_parameter_object (parameter_lists : list TransformSpec)
    : result ParameterObject :=
  setup_loop New parameter_lists.

(** A kind the engine has a default map for. *)
Definition known_kind (transform_type : string) : Prop :=
  ∃ m, GetDefaultParameterMap transform_type = Done m.

(** A spec the loop cannot get through: the engine has no default map
    for its kind, or it carries no dictionary. *)
Definition unresolvable (spec : TransformSpec) : Prop :=
  ¬ known_kind spec.1 ∨ spec.2 = None.

End Builder.

(** ** The world outside: files and the engine

    Calls that touch the file system or run the engine thread a [World]:
    the files on disk and the log of the calls made so far.  An exception
    leaves the world as it was when it was raised. *)
Section Registration.

Context {pixel ndarray itkimage : Type}.

(** The deformation field as the engine returns it: rows of columns of
    displacement vectors. *)
Definition Field : Type := list (list (list pixel)).

Inductive File : Type :=
| TiffFile (data : list (list pixel))
| EngineFile.

(** The engine: image conversions, the default parameter maps, and the
    three filters the code runs.  A filter reads and writes files. *)
Record Engine : Type := {
  (* itk.GetImageViewFromArray(a).astype(itk.F) *)
  image_view_F : ndarray → itkimage;
  (* np.asarray(img) *)
  asarray : itkimage → ndarray;
  (* a.astype(np.float32, copy=False) *)
  astype_float32 : ndarray → ndarray;
  GetDefaultParameterMap : string → engine_result ParameterMap;
  (* ElastixRegistrationMethod: New(a, b), SetParameterObject,
     SetOutputDirectory, UpdateLargestPossibleRegion, GetOutput,
     GetTransformParameterObject *)
  elastix : itkimage → itkimage → ParameterObject → option Path →
            gmap Path File →
            engine_result (itkimage * ParameterObject) * gmap Path File;
  (* itk.transformix_filter(image, transform_parameters) *)
  transformix_filter : ndarray → ParameterObject → gmap Path File →
            engine_result itkimage * gmap Path File;
  (* TransformixFilter: New(image, transform_parameters),
     SetComputeDeformationField(True), SetOutputDirectory,
     UpdateLargestPossibleRegion, GetOutputDeformationField *)
  transformix_deformation : itkimage → ParameterObject → option Path →
            gmap Path File →
            engine_result Field * gmap Path File;
}.

Inductive Event : Type :=
| ElastixUpdate (first second : itkimage) (parameter_object : ParameterObject)
    (output_directory : option Path)
| TransformixFilterCall (image : ndarray) (transform : ParameterObject)
| TransformixUpdate (image : itkimage) (transform : ParameterObject)
    (output_directory : option Path)
| Imwrite (path : Path) (data : list (list pixel))
| Unlink (path : Path).

Record World : Type := {
  files : gmap Path File;
  trace : list Event;
}.

Definition M (A : Type) : Type := World → result A * World.

Definition ret {A} (a : A) : M A := λ w, (Ok a, w).

Definition bind {A B} (m : M A) (k : A → M B) : M B :=
  λ w, match m w with
       | (Ok a, w') => k a w'
       | (Raise e, w') => (Raise e, w')
       end.

Definition lift {A} (r : result A) : M A := λ w, (r, w).

Definition log (ev : Event) (w : World) : list Event :=
  (trace w ++ [ev])%list.

(** [tifffile.imwrite(path, data)] *)
Definition imwrite (path : Path) (data : list (list pixel)) : M unit :=
  λ w, (Ok (), {| files := <[path := TiffFile data]> (files w);
                  trace := log (Imwrite path data) w |}).

(** [os.unlink(path)] *)
Definition unlink (path : Path) : M unit :=
  λ w, match files w !! path with
       | Some _ => (Ok (), {| files := delete path (files w);
                              trace := log (Unlink path) w |})
       | None => (Raise (FileNotFoundError path),
                  {| files := files w; trace := log (Unlink path) w |})
       end.

(** [deformation_field[:, :, k]] *)
Definition component (k : nat) (deformation_field : Field)
    : result (list (list pixel)) :=
  match mapM (mapM (λ v : list pixel, v !! k)) deformation_field with
  | Some plane => Ok plane
  | None => Raise (IndexError "index is out of bounds for axis 2")
  end.

Variable E : Engine.

Definition run_elastix (first second : itkimage)
    (parameter_object : ParameterObject) (output_directory : option Path)
    : M (itkimage * ParameterObject) :=
  λ w, let '(r, fs) :=
         elastix E first second parameter_object output_directory (files w) in
       (from_engine r,
        {| files := fs;
           trace := log (ElastixUpdate first second parameter_object
                           output_directory) w |}).

Definition run_transformix_filter (image : ndarray)
    (transform : ParameterObject) : M itkimage :=
  λ w, let '(r, fs) := transformix_filter E image transform (files w) in
       (from_engine r,
        {| files := fs; trace := log (TransformixFilterCall image transform) w |}).

Definition run_transformix_deformation (image : itkimage)
    (transform : ParameterObject) (output_directory : option Path) : M Field :=
  λ w, let '(r, fs) :=
         transformix_deformation E image transform output_directory (files w) in
       (from_engine r,
        {| files := fs;
           trace := log (TransformixUpdate image transform output_directory) w |}).

Notation "'do' x <- m ; k" := (bind m (fun x => k))
  (at level 60, x name, m at next level, right associativity).
Notation "'do' ' pat <- m ; k" := (bind m (fun x => match x with pat => k end))
  (at level 60, pat pattern, m at next level, right associativity).

Definition order_key : string := "FinalBSplineInterpolationOrder".

(** The [if output_directory: ... else: ...] block that ends
    [run_registration]. *)
Definition write_outputs (output_directory : option Path)
    (deformation_field : Field) : M unit :=
  match output_directory with
  | Some output_directory =>
      (* Switch the axes from ITK to numpy *)
      do plane <- lift (component 1 deformation_field);
      do _ <- imwrite (output_directory // "deformation_field_0.tiff") plane;
      do plane <- lift (component 0 deformation_field);
      do _ <- imwrite (output_directory // "deformation_field_1.tiff") plane;
      unlink (output_directory // "deformationField.tiff")
  | None =>
      unlink ["deformationField.tiff"]
  end.

Definition run_registration
    (atlas_image moving_image annotation_image : ndarray)
    (parameter_lists : list TransformSpec)
    (output_directory : option Path)
    : M (ndarray * ParameterObject * ndarray * Field) :=
  (* convert to ITK, view only *)
  let atlas_image := image_view_F E atlas_image in
  let moving_image := image_view_F E moving_image in
  do parameter_object <-
    lift (setup_parameter_object (GetDefaultParameterMap E) parameter_lists);
  (* update filter object, get results *)
  do '(result_image, result_transform_parameters) <-
    run_elastix moving_image atlas_image parameter_object output_directory;
  do temp_interp_order <-
    lift (GetParameter 0 order_key result_transform_parameters);
  let result_transform_parameters :=
    SetParameter order_key ["0"] result_transform_parameters in
  do annotation_image_transformix <-
    run_transformix_filter (astype_float32 E annotation_image)
      result_transform_parameters;
  let result_transform_parameters :=
    SetParameter order_key temp_interp_order result_transform_parameters in
  do deformation_field <-
    run_transformix_deformation moving_image result_transform_parameters
      output_directory;
  do _ <- write_outputs output_directory deformation_field;
  ret (asarray E result_image,
       result_transform_parameters,
       asarray E annotation_image_transformix,
       deformation_field).

(** The default-named file transformix leaves behind, where the code
    goes to delete it. *)
Definition stray_artifact (output_directory : option Path) : Path :=
  match output_directory with
  | Some output_directory => output_directory // "deformationField.tiff"
  | None => ["deformationField.tiff"]
  end.

(** The engine goes through: the pipeline is built and each of the three
    filters returns.  [f0] are the files before the call, [f3] the files
    after the last filter; [order] is what the code reads at stage 0. *)
Record EngineRun
    (atlas_image moving_image annotation_image : ndarray)
    (parameter_lists : list TransformSpec) (output_directory : option Path)
    (f0 : gmap Path File)
    (parameter_object : ParameterObject)
    (result_image : itkimage) (transform : ParameterObject)
    (order : ParameterValue)
    (annotation : itkimage) (deformation_field : Field)
    (f1 f2 f3 : gmap Path File) : Prop := {
  run_setup :
    setup_parameter_object (GetDefaultParameterMap E) parameter_lists
      = Ok parameter_object;
  run_forward :
    elastix E (image_view_F E moving_image) (image_view_F E atlas_image)
      parameter_object output_directory f0
      = (Done (result_image, transform), f1);
  run_order : GetParameter 0 order_key transform = Ok order;
  run_annotation :
    transformix_filter E (astype_float32 E annotation_image)
      (SetParameter order_key ["0"] transform) f1
      = (Done annotation, f2);
  run_field :
    transformix_deformation E (image_view_F E moving_image)
      (SetParameter order_key order transform) output_directory f2
      = (Done deformation_field, f3);
}.

(** The field can be sliced as the output-directory mode slices it. *)
Definition has_components (output_directory : option Path)
    (deformation_field : Field) : Prop :=
  match output_directory with
  | Some _ => ∃ c0 c1, component 0 deformation_field = Ok c0 ∧
                       component 1 deformation_field = Ok c1
  | None => True
  end.

(** The calls of a run whose three filters return, in order. *)
Definition engine_calls
    (atlas_image moving_image annotation_image : ndarray)
    (output_directory : option Path)
    (parameter_object transform : ParameterObject) (order : ParameterValue)
    : list Event :=
  [ElastixUpdate (image_view_F E moving_image) (image_view_F E atlas_image)
     parameter_object output_directory;
   TransformixFilterCall (astype_float32 E annotation_image)
     (SetParameter order_key ["0"] transform);
   TransformixUpdate (image_view_F E moving_image)
     (SetParameter order_key order transform) output_directory].

End Registration.

(** Two readings of "the axes permuted into the caller's convention", for
    comparison with what is returned: the displacement components in
    reverse order (what the code does for the files it writes), and the
    two spatial axes exchanged. *)
Definition swap_components {pixel} (field : list (list (list pixel)))
    : list (list (list pixel)) :=
  map (map (@rev pixel)) field.

Fixpoint transpose_spatial {A} (rows : list (list A)) : list (list A) :=
  match rows with
  | [] => []
  | [row] => map (λ x, [x]) row
  | row :: rest => zip_with cons row (transpose_spatial rest)
  end.

Arguments Engine : clear implicits.
Arguments World : clear implicits.
Arguments Event : clear implicits.
Arguments File : clear implicits.

Global Instance File_eq_dec {pixel} `{EqDecision pixel} : EqDecision (File pixel).
Proof. solve_decision. Defined.

Global Instance Event_eq_dec {pixel ndarray itkimage}
    `{EqDecision pixel, EqDecision ndarray, EqDecision itkimage} :
  EqDecision (Event pixel ndarray itkimage).
Proof. solve_decision. Defined.

Global Instance World_eq_dec {pixel ndarray itkimage}
    `{EqDecision pixel, EqDecision ndarray, EqDecision itkimage} :
  EqDecision (World pixel ndarray itkimage).
Proof. solve_decision. Defined.

(** ** The older, flag-driven builder (the second [register.py]) *)
Module Legacy.
Section Legacy.

Variable GetDefaultParameterMap : string → engine_result ParameterMap.

Definition setup_parameter_object (rigid affine bspline : bool)
    (affine_iterations : string) : result ParameterObject :=
  let parameter_object := New in
  try parameter_object <-
    (if rigid then
       try parameter_map_rigid <- from_engine (GetDefaultParameterMap "rigid");
       Ok (AddParameterMap parameter_map_rigid parameter_object)
     else Ok parameter_object);
  try parameter_object <-
    (if affine then
       try parameter_map_affine <- from_engine (GetDefaultParameterMap "affine");
       let parameter_map_affine :=
         <["MaximumNumberOfIterations" := [affine_iterations]]>
           parameter_map_affine in
       Ok (AddParameterMap parameter_map_affine parameter_object)
     else Ok parameter_object);
  try parameter_object <-
    (if bspline then
       try parameter_map_bspline <- from_engine (GetDefaultParameterMap "bspline");
       Ok (AddParameterMap parameter_map_bspline parameter_object)
     else Ok parameter_object);
  Ok parameter_object.

End Legacy.
End Legacy.

(** ** Inversion *)
Module Inverter.
Section Inverter.

Context {itkimage : Type}.

(** How a registration seeded with an initial transform ends: with an
    image and a transform, with the engine's non-convergence signal, or
    with another engine failure. *)
Inductive seeded_outcome : Type :=
| Converged (image : itkimage) (transform : ParameterObject)
| Diverged (diagnostic : string)
| Failed (diagnostic : string).

(** The engine run with [fixed], [moving], the stage pipeline and the
    initial transform, in this order. *)
Variable seeded_registration :
  itkimage → itkimage → ParameterObject → ParameterObject → seeded_outcome.

(** Modelled from the spec: [invert_transformation], which the tests
    import from [brainglobe_registration.elastix.register] and which is
    in neither [register.py].  Section 4.4: registration is re-run with
    the reference image as both fixed and moving input, seeded with the
    forward transform; the image and the inverse transform are
    returned; failures follow the taxonomy of 4.2, and a diverging
    seeded optimisation is an [InversionError]. *)
Definition invert_transformation (reference_image : itkimage)
    (spec_set : ParameterObject) (forward_transform : ParameterObject)
    : result (itkimage * ParameterObject) :=
  match seeded_registration reference_image reference_image spec_set
          forward_transform with
  | Converged inverted_image inverse_transform =>
      Ok (inverted_image, inverse_transform)
  | Diverged diagnostic => Raise (InversionError diagnostic)
  | Failed diagnostic => Raise (RegistrationError diagnostic)
  end.

End Inverter.
End Inverter.

(** ** The adjustment form ([AdjustMovingImageView])

    A spin box holds integers; the double spin box keeps its value rounded
    to two decimals (Qt's default [decimals], which the form never
    changes), so a rotation is held exactly as a number of hundredths of a
    degree. *)
Module View.

Record SpinBox : Type := {
  minimum : Z;
  maximum : Z;
  singleStep : Z;
  value : Z;
}.

(** [QSpinBox()]: range 0..99, step 1, value 0. *)
Definition QSpinBox : SpinBox :=
  {| minimum := 0; maximum := 99; singleStep := 1; value := 0 |}.

(** [QDoubleSpinBox()]: range 0.00..99.99, step 1.00, value 0.00. *)
Definition QDoubleSpinBox : SpinBox :=
  {| minimum := 0; maximum := 9999; singleStep := 100; value := 0 |}.

Definition bound (lo hi v : Z) : Z := Z.max lo (Z.min hi v).

(** [box.setRange(lo, hi)]: a maximum below the minimum is raised to it;
    the value is brought into the new range. *)
Definition setRange (lo hi : Z) (box : SpinBox) : SpinBox :=
  let hi := Z.max lo hi in
  {| minimum := lo; maximum := hi; singleStep := singleStep box;
     value := bound lo hi (value box) |}.

Definition setSingleStep (step : Z) (box : SpinBox) : SpinBox :=
  {| minimum := minimum box; maximum := maximum box; singleStep := step;
     value := value box |}.

(** [box.setValue(v)]: the value is bounded to the range; [valueChanged]
    fires (the [bool]) when the bounded value differs from the old one. *)
Definition setValue (v : Z) (box : SpinBox) : SpinBox * bool :=
  let v := bound (minimum box) (maximum box) v in
  ({| minimum := minimum box; maximum := maximum box;
      singleStep := singleStep box; value := v |},
   negb (v =? value box)%Z).

(** The arrow buttons and keys: [steps] single steps up or down. *)
Definition stepBy (steps : Z) (box : SpinBox) : SpinBox * bool :=
  setValue (value box + steps * singleStep box) box.

Inductive Signal : Type :=
| adjust_image_signal (x y : Z) (rotation : Z)
| reset_image_signal.

Record AdjustMovingImageView : Type := {
  adjust_moving_image_x : SpinBox;
  adjust_moving_image_y : SpinBox;
  adjust_moving_image_rotate : SpinBox;
  emitted : list Signal;
}.

(** [__init__]; every [valueChanged] is connected after its box has its
    range, and nothing has been emitted yet.  [setRange(-360, 360)] and
    [setSingleStep(0.5)] of the rotation box are in hundredths here. *)
Definition init : AdjustMovingImageView :=
  let min_offset_range := (-2000)%Z in
  let max_offset_range := 2000%Z in
  {| adjust_moving_image_x := setRange min_offset_range max_offset_range QSpinBox;
     adjust_moving_image_y := setRange min_offset_range max_offset_range QSpinBox;
     adjust_moving_image_rotate :=
       setSingleStep 50 (setRange (-36000) 36000 QDoubleSpinBox);
     emitted := [] |}.

Definition emit (s : Signal) (w : AdjustMovingImageView) : AdjustMovingImageView :=
  {| adjust_moving_image_x := adjust_moving_image_x w;
     adjust_moving_image_y := adjust_moving_image_y w;
     adjust_moving_image_rotate := adjust_moving_image_rotate w;
     emitted := (emitted w ++ [s])%list |}.

Definition _on_adjust_image (w : AdjustMovingImageView) : AdjustMovingImageView :=
  emit (adjust_image_signal
          (value (adjust_moving_image_x w))
          (value (adjust_moving_image_y w))
          (value (adjust_moving_image_rotate w))) w.

(** A change of one box: the box is replaced, and the connected slot runs
    when [valueChanged] fired. *)
Definition change_x (r : SpinBox * bool) (w : AdjustMovingImageView) :=
  let w := {| adjust_moving_image_x := r.1;
              adjust_moving_image_y := adjust_moving_image_y w;
              adjust_moving_image_rotate := adjust_moving_image_rotate w;
              emitted := emitted w |} in
  if r.2 then _on_adjust_image w else w.

Definition change_y (r : SpinBox * bool) (w : AdjustMovingImageView) :=
  let w := {| adjust_moving_image_x := adjust_moving_image_x w;
              adjust_moving_image_y := r.1;
              adjust_moving_image_rotate := adjust_moving_image_rotate w;
              emitted := emitted w |} in
  if r.2 then _on_adjust_image w else w.

Definition change_rotate (r : SpinBox * bool) (w : AdjustMovingImageView) :=
  let w := {| adjust_moving_image_x := adjust_moving_image_x w;
              adjust_moving_image_y := adjust_moving_image_y w;
              adjust_moving_image_rotate := r.1;
              emitted := emitted w |} in
  if r.2 then _on_adjust_image w else w.

Definition _on_reset_image_button_click (w : AdjustMovingImageView)
    : AdjustMovingImageView :=
  let w := change_x (setValue 0 (adjust_moving_image_x w)) w in
  let w := change_y (setValue 0 (adjust_moving_image_y w)) w in
  let w := change_rotate (setValue 0 (adjust_moving_image_rotate w)) w in
  emit reset_image_signal w.

(** What the user can do to the form. *)
Inductive Action : Type :=
| EditX (v : Z)
| EditY (v : Z)
| EditRotate (hundredths : Z)
| StepX (steps : Z)
| StepY (steps : Z)
| StepRotate (steps : Z)
| ClickReset.

Definition perform (w : AdjustMovingImageView) (a : Action)
    : AdjustMovingImageView :=
  match a with
  | EditX v => change_x (setValue v (adjust_moving_image_x w)) w
  | EditY v => change_y (setValue v (adjust_moving_image_y w)) w
  | EditRotate v => change_rotate (setValue v (adjust_moving_image_rotate w)) w
  | StepX n => change_x (stepBy n (adjust_moving_image_x w)) w
  | StepY n => change_y (stepBy n (adjust_moving_image_y w)) w
  | StepRotate n => change_rotate (stepBy n (adjust_moving_image_rotate w)) w
  | ClickReset => _on_reset_image_button_click w
  end.

Definition session (actions : list Action) : AdjustMovingImageView :=
  foldl perform init actions.

(** The payload the form promises. *)
Definition in_range (s : Signal) : Prop :=
  match s with
  | adjust_image_signal x y rotation =>
      (-2000 ≤ x ≤ 2000 ∧ -2000 ≤ y ≤ 2000 ∧ -36000 ≤ rotation ≤ 36000)%Z
  | reset_image_signal => True
  end.

(** The three boxes keep the ranges [__init__] gave them, the rotation
    box its step, and every value sits in its range. *)
Record configured (w : AdjustMovingImageView) : Prop := {
  x_min : minimum (adjust_moving_image_x w) = (-2000)%Z;
  x_max : maximum (adjust_moving_image_x w) = 2000%Z;
  x_val : (-2000 ≤ value (adjust_moving_image_x w) ≤ 2000)%Z;
  y_min : minimum (adjust_moving_image_y w) = (-2000)%Z;
  y_max : maximum (adjust_moving_image_y w) = 2000%Z;
  y_val : (-2000 ≤ value (adjust_moving_image_y w) ≤ 2000)%Z;
  r_min : minimum (adjust_moving_image_rotate w) = (-36000)%Z;
  r_max : maximum (adjust_moving_image_rotate w) = 36000%Z;
  r_step : singleStep (adjust_moving_image_rotate w) = 50%Z;
  r_val : (-36000 ≤ value (adjust_moving_image_rotate w) ≤ 36000)%Z;
}.

Definition sound (w : AdjustMovingImageView) : Prop :=
  configured w ∧ Forall in_range (emitted w).


End View.

(** ** A small engine to run the code on

    It documents four kinds, echoes the stage pipeline as the transform
    (every stage carrying an interpolation order, "3" unless the stage
    says otherwise), refuses images whose row counts differ, and displaces
    a pixel of value [p] by [(p, p + 1)].  Whether transformix leaves its
    [deformationField.tiff] behind is a switch. *)
Module Toy.

Abbreviation image := (list (list Z)).

Definition documented : list string :=
  ["translation"; "rigid"; "affine"; "bspline"].

Definition default_of (kind : string) : ParameterMap :=
  <["Transform" := [kind]]>
    (<["MaximumNumberOfIterations" := ["256"]]>
       (<[order_key := ["3"]]> ∅)).

Definition default_map (kind : string) : engine_result ParameterMap :=
  if decide (kind ∈ documented) then Done (default_of kind)
  else Throws ("No default parameter map " ++ kind).

Definition with_order (m : ParameterMap) : ParameterMap :=
  match m !! order_key with
  | Some _ => m
  | None => <[order_key := ["3"]]> m
  end.

Definition displacements (img : image) : list (list (list Z)) :=
  map (map (λ p : Z, [p; p + 1]%Z)) img.

Definition engine (leaves_field_file : bool) : Engine Z image image :=
  {| image_view_F := id;
     asarray := id;
     astype_float32 := id;
     GetDefaultParameterMap := default_map;
     elastix := λ (first second : image) parameter_object output_directory fs,
       if (length first =? length second)%nat then
         (Done (second, with_order <$> parameter_object),
          match output_directory with
          | Some d => <[d // "TransformParameters.0.txt" := EngineFile]> fs
          | None => fs
          end)
       else (Throws "dimension mismatch between fixed and moving image", fs);
     transformix_filter := λ (img : image) transform fs, (Done img, fs);
     transformix_deformation := λ (img : image) transform output_directory fs,
       (Done (displacements img),
        if leaves_field_file
        then <[stray_artifact output_directory := EngineFile]> fs
        else fs) |}.

Definition empty_world : World Z image image := {| files := ∅; trace := [] |}.

Definition picture : image := [[10; 20]; [30; 40]]%Z.

Definition narrow : image := [[1]]%Z.
Definition tall : image := [[1]; [2]]%Z.

Definition rigid_stage : ParameterMap :=
  <[order_key := ["3"]]> {["Transform" := ["EulerTransform"]]}.

Definition affine_stage : ParameterMap :=
  <[order_key := ["1"]]> {["Transform" := ["AffineTransform"]]}.

(** Two stages that ask for different final interpolation orders. *)
Definition two_orders : list TransformSpec :=
  [("rigid", Some rigid_stage); ("affine", Some affine_stage)].

(** The transform the engine produces for [two_orders], and the one
    that differs from it at stage 1 only. *)
Definition produced_transform : ParameterObject :=
  [rigid_stage; affine_stage].

Definition returned_transform : ParameterObject :=
  [rigid_stage; <[order_key := ["3"]]> affine_stage].

Definition affine_only : list TransformSpec :=
  [("affine", Some {["Transform" := ["AffineTransform"]]})].

(** What the engine hands back for [affine_only]. *)
Definition affine_transform : ParameterObject :=
  [<[order_key := ["3"]]> {["Transform" := ["AffineTransform"]]}].

End Toy.

(** ** The registration call of the older [register.py]

    It takes the images as (fixed, moving), builds the pipeline from its
    flags, sets console logging, and returns the image and the transform
    as the engine gives them.  It writes no file of its own, so only the
    files are threaded. *)
Module LegacyRegistration.
Section Run.

Context {pixel ndarray itkimage : Type}.
Variable E : Engine pixel ndarray itkimage.

(** [ElastixRegistrationMethod]: [New(a, b)], [SetParameterObject],
    [SetLogToConsole(log)], [UpdateLargestPossibleRegion], [GetOutput],
    [GetTransformParameterObject]. *)
Variable elastix_console :
  bool → itkimage → itkimage → ParameterObject → gmap Path (File pixel) →
  engine_result (itkimage * ParameterObject) * gmap Path (File pixel).

Definition run_registration (fixed_image moving_image : ndarray)
    (rigid affine bspline : bool) (affine_iterations : string) (log : bool)
    (fs : gmap Path (File pixel))
    : result (ndarray * ParameterObject) * gmap Path (File pixel) :=
  (* convert to ITK, view only *)
  let fixed_image := image_view_F E fixed_image in
  let moving_image := image_view_F E moving_image in
  match Legacy.setup_parameter_object (GetDefaultParameterMap E)
          rigid affine bspline affine_iterations with
  | Raise e => (Raise e, fs)
  | Ok parameter_object =>
      let '(r, fs) :=
        elastix_console log fixed_image moving_image parameter_object fs in
      (try out <- from_engine r;
       Ok (asarray E out.1, out.2),
       fs)
  end.

End Run.
End LegacyRegistration.

(** The stages the flag-driven builder asks for, as specs for the
    list-driven one: each enabled kind with the map the flags stand for. *)
Definition flag_specs (rigid_default affine_default bspline_default : PyDict)
    (rigid affine bspline : bool) (affine_iterations : string)
    : list (string * PyDict) :=
  ((if rigid then [("rigid", rigid_default)] else []) ++
   (if affine
    then [("affine",
           <["MaximumNumberOfIterations" := [affine_iterations]]> affine_default)]
    else []) ++
   (if bspline then [("bspline", bspline_default)] else []))%list.

(** ** The comparison helper of the tests *)
Module Tests.

Inductive verdict : Type :=
| Passed
| AssertionError
| Errored (e : exn).

Global Instance verdict_eq_dec : EqDecision verdict.
Proof. solve_decision. Defined.

(** The [for index in range(...)] loop of [compare_parameter_objects]. *)
Fixpoint compare_submaps (param_obj1 param_obj2 : ParameterObject)
    (indices : list nat) : verdict :=
  match indices with
  | [] => Passed
  | index :: rest =>
      match GetParameterMap index param_obj1 with
      | Raise e => Errored e
      | Ok submap_1 =>
          match GetParameterMap index param_obj2 with
          | Raise e => Errored e
          | Ok submap_2 =>
              if decide (submap_1 = submap_2)
              then compare_submaps param_obj1 param_obj2 rest
              else AssertionError
          end
      end
  end.

Definition compare_parameter_objects (param_obj1 param_obj2 : ParameterObject)
    : verdict :=
  if decide (GetNumberOfParameterMaps param_obj1
             = GetNumberOfParameterMaps param_obj2)
  then compare_submaps param_obj1 param_obj2
         (seq 0 (GetNumberOfParameterMaps param_obj1))
  else AssertionError.

End Tests.

(** ** Vocabulary for the properties *)

(** The exceptions the code can let out: the engine's, and those of the
    Python operations it performs. *)
Definition raised_by_code (e : exn) : Prop :=
  match e with
  | ItkError _ | AttributeError _ | IndexError _ | FileNotFoundError _ => True
  | _ => False
  end.

(** Two objects that agree on every entry other than [key]. *)
Definition same_but (key : string) (a b : ParameterObject) : Prop :=
  length a = length b ∧
  ∀ i (ma mb : gmap string (list string)) k,
    a !! i = Some ma → b !! i = Some mb → k ≠ key → ma !! k = mb !! k.


(** What a listener that follows the signals of the form believes the
    three values to be. *)
Definition follow (belief : Z * Z * Z) (s : View.Signal) : Z * Z * Z :=
  match s with
  | View.adjust_image_signal x y rotation => (x, y, rotation)
  | View.reset_image_signal => (0, 0, 0)%Z
  end.

Definition listener_view (signals : list View.Signal) : Z * Z * Z :=
  foldl follow (0, 0, 0)%Z signals.

(** The listener and the form agree. *)
Definition synced (w : View.AdjustMovingImageView) : Prop :=
  listener_view (View.emitted w)
  = (View.value (View.adjust_moving_image_x w),
     View.value (View.adjust_moving_image_y w),
     View.value (View.adjust_moving_image_rotate w)).

Definition is_reset (s : View.Signal) : bool :=
  match s with
  | View.reset_image_signal => true
  | _ => false
  end.

Definition is_click (a : View.Action) : bool :=
  match a with
  | View.ClickReset => true
  | _ => false
  end.

(** A second engine table: the same kinds, other defaults. *)
Definition sparse_default_map (kind : string) : engine_result ParameterMap :=
  if decide (kind ∈ Toy.documented) then Done ∅
  else Throws ("No default parameter map " ++ kind).

(** Variants of the small engine: the annotation transform or the
    deformation run can refuse, and the field can come with one
    component per vector only. *)
Definition toy_variant (filter_fails deformation_fails flat : bool)
    : Engine Z Toy.image Toy.image :=
  {| image_view_F := id;
     asarray := id;
     astype_float32 := id;
     GetDefaultParameterMap := Toy.default_map;
     elastix := elastix (Toy.engine true);
     transformix_filter := λ (img : Toy.image) transform fs,
       if filter_fails
       then (Throws "transformix: unsupported pixel type", fs)
       else (Done img, fs);
     transformix_deformation := λ (img : Toy.image) transform output_directory fs,
       if deformation_fails
       then (Throws "transformix: could not compute the deformation field", fs)
       else (Done (if flat then map (map (λ p : Z, [p])) img
                   else Toy.displacements img),
             <[stray_artifact output_directory := EngineFile]> fs) |}.

(** * Properties *)

(** ** The builder *)

Section BuilderFacts.

Variable G : string → engine_result ParameterMap.

Lemma assign_items_union (items : list (string * list string))
    (m : gmap string (list string)) :
  NoDup items.*1 →
  assign_items m items = list_to_map items ∪ m.
Proof.
  unfold assign_items. revert m.
  induction items as [|[k v] items IH]; intros m Hnd; simpl.
  - by rewrite (left_id_L ∅ (∪)).
  - apply NoDup_cons in Hnd as [Hk Hnd].
    rewrite IH by done.
    rewrite <- insert_union_r by (by apply not_elem_of_list_to_map_1).
    by rewrite insert_union_l.
Qed.

(** Copying the items of a dict into a cleared map gives the dict. *)
Lemma assign_items_dict (parameter_map d : gmap string (list string)) :
  assign_items (clear parameter_map) (map_to_list d) = d.
Proof.
  rewrite assign_items_union by apply NoDup_fst_map_to_list.
  rewrite list_to_map_to_list. unfold clear. by rewrite (right_id_L ∅ (∪)).
Qed.

Lemma setup_stage_explicit (po : ParameterObject) kind
    (d : gmap string (list string)) :
  known_kind G kind →
  setup_stage G po (kind, Some d) = Ok (po ++ [d])%list.
Proof.
  intros [m Hm]. unfold setup_stage. rewrite Hm. simpl.
  by rewrite assign_items_dict.
Qed.

Lemma setup_loop_explicit (specs : list (string * gmap string (list string)))
    (po : ParameterObject) :
  Forall (known_kind G) specs.*1 →
  setup_loop G po (explicit specs) = Ok (po ++ specs.*2)%list.
Proof.
  revert po. induction specs as [|[kind d] specs IH]; intros po Hk.
  - simpl. by rewrite app_nil_r.
  - apply Forall_cons in Hk as [Hkind Hk].
    change (explicit ((kind, d) :: specs))
      with ((kind, Some d) :: explicit specs).
    cbn [setup_loop]. rewrite setup_stage_explicit by done.
    cbn [result_bind]. rewrite IH by done.
    by rewrite <- app_assoc.
Qed.

Lemma setup_parameter_object_explicit
    (specs : list (string * gmap string (list string))) :
  Forall (known_kind G) specs.*1 →
  setup_parameter_object G (explicit specs) = Ok specs.*2.
Proof. intros Hk. unfold setup_parameter_object. by rewrite setup_loop_explicit. Qed.

(** A stage either extends the object by one map or raises one of two
    exceptions. *)
Lemma setup_stage_cases (po : ParameterObject) (spec : TransformSpec) :
  (∃ d, known_kind G spec.1 ∧ spec.2 = Some d ∧
        setup_stage G po spec = Ok (po ++ [d])%list) ∨
  (∃ diagnostic, G spec.1 = Throws diagnostic ∧
        setup_stage G po spec = Raise (ItkError diagnostic)) ∨
  (∃ message, known_kind G spec.1 ∧ spec.2 = None ∧
        setup_stage G po spec = Raise (AttributeError message)).
Proof.
  destruct spec as [kind [d|]]; cbn [fst snd].
  - destruct (G kind) as [m|diagnostic] eqn:Hm.
    + left. exists d. split; [by exists m|]. split; [done|].
      apply setup_stage_explicit. by exists m.
    + right; left. exists diagnostic. split; [done|].
      unfold setup_stage. by rewrite Hm.
  - destruct (G kind) as [m|diagnostic] eqn:Hm.
    + right; right. eexists. split; [by exists m|]. split; [done|].
      unfold setup_stage. rewrite Hm. simpl. reflexivity.
    + right; left. exists diagnostic. split; [done|].
      unfold setup_stage. by rewrite Hm.
Qed.

Lemma setup_loop_fails_iff (specs : list TransformSpec) (po : ParameterObject) :
  (∃ e, setup_loop G po specs = Raise e) ↔ Exists (unresolvable G) specs.
Proof.
  revert po. induction specs as [|spec specs IH]; intros po; simpl.
  - split; [intros [e He]; discriminate | intros H; inversion H].
  - destruct (setup_stage_cases po spec)
      as [(d & Hk & Hd & ->) | [(dg & Hg & ->) | (msg & Hk & Hd & ->)]]; simpl.
    + rewrite IH. split; [by right|].
      intros H. apply Exists_cons in H as [[Hnk|Hn]|H]; [done| |done].
      rewrite Hd in Hn. discriminate.
    + split; [|by eexists]. intros _. left. left.
      intros [m Hm]. rewrite Hg in Hm. discriminate.
    + split; [|by eexists]. intros _. left. by right.
Qed.

Lemma setup_loop_error_kind (specs : list TransformSpec) (po : ParameterObject) e :
  setup_loop G po specs = Raise e →
  (∃ spec diagnostic, spec ∈ specs ∧ G spec.1 = Throws diagnostic ∧
                      e = ItkError diagnostic) ∨
  (∃ message, e = AttributeError message).
Proof.
  revert po. induction specs as [|spec specs IH]; intros po; simpl; [done|].
  destruct (setup_stage_cases po spec)
    as [(d & Hk & Hd & ->) | [(dg & Hg & ->) | (msg & Hk & Hd & ->)]]; simpl.
  - intros H. apply IH in H as [(s & dg & Hs & Hg & ->)|H]; [left|by right].
    exists s, dg. split; [by right|done].
  - intros [= <-]. left. exists spec, dg. split; [by left|done].
  - intros [= <-]. right. by eexists.
Qed.

End BuilderFacts.

Lemma toy_known (kind : string) :
  kind ∈ Toy.documented → known_kind Toy.default_map kind.
Proof.
  intros Hk. exists (Toy.default_of kind). unfold Toy.default_map.
  by rewrite decide_True.
Qed.

(** Side conditions [Forall (known_kind G) kinds] on a concrete list. *)
Ltac known_kinds :=
  repeat (apply Forall_cons_2;
          [apply toy_known;
           repeat first [apply list_elem_of_here | apply list_elem_of_further]|]);
  apply Forall_nil_2.

(** C4 (as the code has it).  Whatever default maps the engine documents,
    a list of specs that each carry an explicit option map, with kinds the
    engine knows, builds a parameter object whose stage maps are exactly
    the supplied maps: the default map is fetched, cleared, and replaced,
    never merged.  No stage comes out as the default map for want of a
    dictionary: a list with such a stage builds nothing. *)
Theorem explicit_map_replaces_default
    (G : string → engine_result ParameterMap)
    (specs : list (string * gmap string (list string))) :
  Forall (known_kind G) specs.*1 →
  (∃ parameter_object,
     setup_parameter_object G (explicit specs) = Ok parameter_object ∧
     ∀ i kind (d : gmap string (list string)),
       specs !! i = Some (kind, d) →
       GetParameterMap i parameter_object = Ok d) ∧
  (∀ (before after : list TransformSpec) kind,
     ∃ e, setup_parameter_object G (before ++ (kind, None) :: after) = Raise e).
Proof.
  intros Hk. split.
  - exists specs.*2. split.
    + by apply setup_parameter_object_explicit.
    + intros i kind d Hi. unfold GetParameterMap.
      rewrite list_lookup_fmap, Hi. reflexivity.
  - intros before after kind. apply setup_loop_fails_iff.
    apply Exists_app. right. apply Exists_cons. left. by right.
Qed.

Lemma explicit_map_replaces_default_witness :
  (∃ parameter_object,
     setup_parameter_object Toy.default_map
       (explicit [("rigid", {["Transform" := ["EulerTransform"]]});
                  ("affine", {["Transform" := ["AffineTransform"]]});
                  ("bspline", {["Transform" := ["BSplineTransform"]]})])
     = Ok parameter_object ∧
     ∀ i kind (d : gmap string (list string)),
       [("rigid", {["Transform" := ["EulerTransform"]]});
        ("affine", {["Transform" := ["AffineTransform"]]});
        ("bspline", {["Transform" := ["BSplineTransform"]]})] !! i
         = Some (kind, d) →
       GetParameterMap i parameter_object = Ok d) ∧
  (∀ (before after : list TransformSpec) kind,
     ∃ e, setup_parameter_object Toy.default_map
            (before ++ (kind, None) :: after) = Raise e).
Proof.
  apply (explicit_map_replaces_default Toy.default_map).
  known_kinds.
Defined.

(** C4, refuted as stated: a stage given no dictionary does not come out
    as the engine's default map.  With [None] in place of the dictionary
    the call raises; with an empty dictionary the stage map is empty; and
    the flag-driven builder, which takes no dictionaries at all, overrides
    an entry of the affine default. *)
Lemma no_dictionary_is_not_default :
  Toy.default_map "rigid" = Done (Toy.default_of "rigid") ∧
  Toy.default_map "affine" = Done (Toy.default_of "affine") ∧
  setup_parameter_object Toy.default_map [("rigid", None)]
    = Raise (AttributeError "'NoneType' object has no attribute 'items'") ∧
  setup_parameter_object Toy.default_map [("rigid", Some ∅)] = Ok [∅] ∧
  Toy.default_of "rigid" ≠ ∅ ∧
  Legacy.setup_parameter_object Toy.default_map false true false "2048"
    = Ok [<["MaximumNumberOfIterations" := ["2048"]]> (Toy.default_of "affine")] ∧
  <["MaximumNumberOfIterations" := ["2048"]]> (Toy.default_of "affine")
    ≠ Toy.default_of "affine".
Proof.
  repeat split; compute_done.
Qed.

(** C5 (as the code has it).  The builder never raises
    [ConfigurationError].  It fails exactly when some stage names a kind
    the engine has no default map for, with or without an option map for
    that stage, or carries no dictionary; what is raised is the engine's
    own exception with the diagnostic for a kind of the list, or the
    [AttributeError] of the missing dictionary. *)
Theorem setup_failure_is_engine_failure
    (G : string → engine_result ParameterMap) (specs : list TransformSpec) :
  ((∃ e, setup_parameter_object G specs = Raise e) ↔
   Exists (unresolvable G) specs) ∧
  (∀ e, setup_parameter_object G specs = Raise e →
     (∃ spec diagnostic, spec ∈ specs ∧ G spec.1 = Throws diagnostic ∧
                         e = ItkError diagnostic) ∨
     (∃ message, e = AttributeError message)) ∧
  (∀ diagnostic,
     setup_parameter_object G specs ≠ Raise (ConfigurationError diagnostic)).
Proof.
  split; [apply setup_loop_fails_iff|].
  split; [apply setup_loop_error_kind|].
  intros diagnostic H.
  apply setup_loop_error_kind in H as [(s & dg & _ & _ & H)|[msg H]];
    discriminate.
Qed.

(** C5, refuted as stated: an explicit option map does not shield an
    unknown kind, and an unknown kind without options does not fail with
    [ConfigurationError]; both raise the engine's exception. *)
Lemma unknown_kind_fails_with_options :
  setup_parameter_object Toy.default_map
    [("spline9", Some {["Transform" := ["BSplineTransform"]]})]
    = Raise (ItkError "No default parameter map spline9") ∧
  setup_parameter_object Toy.default_map [("spline9", None)]
    = Raise (ItkError "No default parameter map spline9") ∧
  ∀ diagnostic,
    setup_parameter_object Toy.default_map [("spline9", None)]
      ≠ Raise (ConfigurationError diagnostic).
Proof.
  split; [compute_done|]. split; [compute_done|].
  intros diagnostic H.
  assert (Hrun : setup_parameter_object Toy.default_map [("spline9", None)]
                 = Raise (ItkError "No default parameter map spline9"))
    by compute_done.
  rewrite Hrun in H. discriminate.
Qed.

(** C6 (as the code has it).  For every list of specs with explicit option
    maps over kinds the engine documents, the empty list and repeated
    kinds included, the builder returns a parameter object with as many
    maps as there are specs, in input order, and a stage whose options
    give [Transform] has that value as its [Transform] entry; the empty
    list gives the zero-stage object. *)
Theorem stages_follow_specs
    (G : string → engine_result ParameterMap)
    (specs : list (string * gmap string (list string))) :
  Forall (known_kind G) specs.*1 →
  ∃ parameter_object,
    setup_parameter_object G (explicit specs) = Ok parameter_object ∧
    GetNumberOfParameterMaps parameter_object = length specs ∧
    (specs = [] → parameter_object = New) ∧
    (∀ i kind (d : gmap string (list string)),
       specs !! i = Some (kind, d) → parameter_object !! i = Some d) ∧
    (∀ i kind (d : gmap string (list string)) override,
       specs !! i = Some (kind, d) →
       d !! "Transform" = Some override →
       ∃ m : gmap string (list string),
         GetParameterMap i parameter_object = Ok m ∧
         m !! "Transform" = Some override).
Proof.
  intros Hk. exists specs.*2. split; [by apply setup_parameter_object_explicit|].
  split; [unfold GetNumberOfParameterMaps; by rewrite length_fmap|].
  split; [by intros ->|].
  split.
  - intros i kind d Hi. by rewrite list_lookup_fmap, Hi.
  - intros i kind d override Hi Ht. exists d. split; [|done].
    unfold GetParameterMap. by rewrite list_lookup_fmap, Hi.
Qed.

Lemma stages_follow_specs_witness :
  ∃ parameter_object,
    setup_parameter_object Toy.default_map
      (explicit [("rigid", {["Transform" := ["EulerTransform"]]});
                 ("rigid", {["Transform" := ["EulerTransform"]]});
                 ("rigid", {["Transform" := ["EulerTransform"]]})])
    = Ok parameter_object ∧
    GetNumberOfParameterMaps parameter_object = 3.
Proof.
  destruct (stages_follow_specs Toy.default_map
              [("rigid", {["Transform" := ["EulerTransform"]]});
               ("rigid", {["Transform" := ["EulerTransform"]]});
               ("rigid", {["Transform" := ["EulerTransform"]]})])
    as (po & Hpo & Hn & _).
  - known_kinds.
  - exists po. split; [exact Hpo | exact Hn].
Defined.

(** C6, refuted as stated: not every list of specs with explicit
    [Transform] overrides builds a parameter object.  A two-stage list
    whose second kind the engine does not document gives no object at
    all, so no stage count, no order and no [Transform] entry, though
    its first stage alone builds. *)
Lemma undocumented_kind_builds_no_stages :
  setup_parameter_object Toy.default_map
    (explicit [("rigid", {["Transform" := ["EulerTransform"]]})])
    = Ok [{["Transform" := ["EulerTransform"]]}] ∧
  setup_parameter_object Toy.default_map
    (explicit [("rigid", {["Transform" := ["EulerTransform"]]});
               ("spline9", {["Transform" := ["BSplineTransform"]]})])
    = Raise (ItkError "No default parameter map spline9") ∧
  ∀ parameter_object,
    setup_parameter_object Toy.default_map
      (explicit [("rigid", {["Transform" := ["EulerTransform"]]});
                 ("spline9", {["Transform" := ["BSplineTransform"]]})])
    ≠ Ok parameter_object.
Proof.
  assert (Hrun : setup_parameter_object Toy.default_map
                   (explicit [("rigid", {["Transform" := ["EulerTransform"]]});
                              ("spline9",
                               {["Transform" := ["BSplineTransform"]]})])
                 = Raise (ItkError "No default parameter map spline9"))
    by compute_done.
  split; [compute_done|]. split; [exact Hrun|].
  intros parameter_object H. rewrite Hrun in H. discriminate H.
Qed.

(** ** The registration call *)

Lemma path_div_inj (d : Path) (a b : string) : d // a = d // b → a = b.
Proof.
  unfold path_div. intros H. apply app_inv_head in H. by inversion H.
Qed.

Lemma SetParameter_twice key (v1 v2 : list string) (po : ParameterObject) :
  SetParameter key v2 (SetParameter key v1 po) = SetParameter key v2 po.
Proof.
  unfold SetParameter. rewrite <- list_fmap_compose.
  apply list_fmap_ext. intros i m _. simpl. apply insert_insert_eq.
Qed.

(** While the annotation image is transformed, every stage reads "0". *)
Lemma SetParameter_every_stage key (v : list string) (po : ParameterObject) :
  Forall (λ m : gmap string (list string), m !! key = Some v)
    (SetParameter key v po).
Proof.
  unfold SetParameter. apply Forall_fmap, Forall_forall. intros m _. simpl.
  apply lookup_insert_eq.
Qed.

(** Writing back the value read at stage 0 restores an object whose stages
    all held that value. *)
Lemma SetParameter_uniform key (v : list string) (po : ParameterObject) :
  Forall (λ m : gmap string (list string), m !! key = Some v) po →
  SetParameter key v po = po.
Proof.
  unfold SetParameter. induction 1 as [|m po Hm _ IH]; simpl; [done|].
  rewrite insert_id by done. by f_equal.
Qed.

Section RegistrationFacts.

Context {pixel ndarray itkimage : Type}.
Variable E : Engine pixel ndarray itkimage.

Variables atlas_image moving_image annotation_image : ndarray.
Variable parameter_lists : list TransformSpec.
Variable output_directory : option Path.

(** An engine that goes through brings the call to its last block, with
    the three calls logged and the order of stage 0 written back to
    every stage. *)
Lemma run_registration_reaches_outputs
    (w : World pixel ndarray itkimage) po img tp order ann df f1 f2 f3 :
  EngineRun E atlas_image moving_image annotation_image parameter_lists
    output_directory (files w) po img tp order ann df f1 f2 f3 →
  run_registration E atlas_image moving_image annotation_image
    parameter_lists output_directory w
  = match write_outputs output_directory df
            {| files := f3;
               trace := (trace w ++
                 engine_calls E atlas_image moving_image annotation_image
                   output_directory po tp order)%list |} with
    | (Ok _, w') =>
        (Ok (asarray E img, SetParameter order_key order tp,
             asarray E ann, df), w')
    | (Raise e, w') => (Raise e, w')
    end.
Proof.
  intros [Hsetup Hfwd Horder Hann Hfield].
  unfold run_registration, bind, lift. rewrite Hsetup.
  unfold run_elastix. cbn [files trace]. rewrite Hfwd.
  cbn [from_engine files trace]. rewrite Horder.
  unfold run_transformix_filter. cbn [files trace]. rewrite Hann.
  cbn [from_engine files trace].
  unfold run_transformix_deformation. cbn [files trace].
  rewrite SetParameter_twice, Hfield. cbn [from_engine files trace].
  unfold engine_calls, log. cbn [files trace].
  rewrite <- !app_assoc. cbn [app].
  destruct (write_outputs _ _ _) as [[[]|e] w']; reflexivity.
Qed.

(** A failing forward registration ends the call at once. *)
Lemma run_registration_forward_failure
    (w : World pixel ndarray itkimage) po diagnostic f1 :
  setup_parameter_object (GetDefaultParameterMap E) parameter_lists = Ok po →
  elastix E (image_view_F E moving_image) (image_view_F E atlas_image)
    po output_directory (files w) = (Throws diagnostic, f1) →
  run_registration E atlas_image moving_image annotation_image
    parameter_lists output_directory w
  = (Raise (ItkError diagnostic),
     {| files := f1;
        trace := (trace w ++
          [ElastixUpdate (image_view_F E moving_image)
             (image_view_F E atlas_image) po output_directory])%list |}).
Proof.
  intros Hsetup Hfwd.
  unfold run_registration, bind, lift. rewrite Hsetup.
  unfold run_elastix. rewrite Hfwd. reflexivity.
Qed.

(** The last block in the working-directory mode. *)
Lemma write_outputs_working_directory (df : Field)
    (w : World pixel ndarray itkimage) :
  write_outputs None df w
  = match files w !! ["deformationField.tiff"] with
    | Some _ =>
        (Ok (), {| files := delete ["deformationField.tiff"] (files w);
                   trace := (trace w ++ [Unlink ["deformationField.tiff"]])%list |})
    | None =>
        (Raise (FileNotFoundError ["deformationField.tiff"]),
         {| files := files w;
            trace := (trace w ++ [Unlink ["deformationField.tiff"]])%list |})
    end.
Proof. reflexivity. Qed.

(** The last block in the output-directory mode, for a field that has
    both components. *)
Lemma write_outputs_output_directory (d : Path) (df : Field) c0 c1
    (w : World pixel ndarray itkimage) :
  component 0 df = Ok c0 →
  component 1 df = Ok c1 →
  let written :=
    <[d // "deformation_field_1.tiff" := TiffFile c0]>
      (<[d // "deformation_field_0.tiff" := TiffFile c1]> (files w)) in
  let calls :=
    (trace w ++ [Imwrite (d // "deformation_field_0.tiff") c1;
                 Imwrite (d // "deformation_field_1.tiff") c0;
                 Unlink (d // "deformationField.tiff")])%list in
  write_outputs (Some d) df w
  = match files w !! (d // "deformationField.tiff") with
    | Some _ =>
        (Ok (), {| files := delete (d // "deformationField.tiff") written;
                   trace := calls |})
    | None =>
        (Raise (FileNotFoundError (d // "deformationField.tiff")),
         {| files := written; trace := calls |})
    end.
Proof.
  intros H0 H1 written calls. subst written calls.
  unfold write_outputs, bind, lift. rewrite H1.
  unfold imwrite at 1. cbn [files trace]. rewrite H0.
  unfold imwrite, unlink, log. cbn [files trace].
  rewrite !lookup_insert_ne
    by (intros Heq; apply path_div_inj in Heq; discriminate).
  rewrite <- !app_assoc. cbn [app].
  destruct (files w !! _); reflexivity.
Qed.

End RegistrationFacts.

(** C1, at an input where it breaks.  Two stages ask for final
    interpolation orders "3" and "1"; the engine hands back a transform
    whose stages hold these orders; the transform [run_registration]
    returns holds "3" at stage 1, the value read at stage 0 having been
    written back to every stage. *)
Theorem stage_one_order_overwritten :
  setup_parameter_object Toy.default_map Toy.two_orders
    = Ok Toy.produced_transform ∧
  (elastix (Toy.engine true) Toy.picture Toy.picture Toy.produced_transform
     None ∅).1 = Done (Toy.picture, Toy.produced_transform) ∧
  (run_registration (Toy.engine true) Toy.picture Toy.picture Toy.picture
     Toy.two_orders None Toy.empty_world).1
    = Ok (Toy.picture, Toy.returned_transform, Toy.picture,
          Toy.displacements Toy.picture) ∧
  GetParameter 0 order_key Toy.produced_transform = Ok ["3"] ∧
  GetParameter 1 order_key Toy.produced_transform = Ok ["1"] ∧
  GetParameter 1 order_key Toy.returned_transform = Ok ["3"] ∧
  Toy.returned_transform ≠ Toy.produced_transform.
Proof. repeat split; compute_done. Qed.

Section RegistrationClaims.

Context {pixel ndarray itkimage : Type}.
Variable E : Engine pixel ndarray itkimage.

Variables atlas_image moving_image annotation_image : ndarray.
Variable parameter_lists : list TransformSpec.

(** C2 (as the code has it).  When the engine goes through and the last
    block succeeds, the deformation field handed to the caller is the
    field the engine returned, as it is: whatever [run_registration]
    returns carries that field, and it does return. *)
Theorem returned_field_is_engine_field
    (output_directory : option Path)
    (w : World pixel ndarray itkimage) po img tp order ann df f1 f2 f3 :
  EngineRun E atlas_image moving_image annotation_image parameter_lists
    output_directory (files w) po img tp order ann df f1 f2 f3 →
  has_components output_directory df →
  is_Some (f3 !! stray_artifact output_directory) →
  ∃ result_image transform annotation w',
    run_registration E atlas_image moving_image annotation_image
      parameter_lists output_directory w
    = (Ok (result_image, transform, annotation, df), w').
Proof.
  intros Hrun Hc [x Hx].
  rewrite (run_registration_reaches_outputs _ _ _ _ _ _ _ _ _ _ _ _ _ _ _ _ Hrun).
  destruct output_directory as [d|].
  - destruct Hc as (c0 & c1 & H0 & H1).
    rewrite (write_outputs_output_directory d df c0 c1) by done.
    cbn [files trace stray_artifact] in *. rewrite Hx. by eexists _, _, _, _.
  - rewrite write_outputs_working_directory.
    cbn [files trace stray_artifact] in *. rewrite Hx. by eexists _, _, _, _.
Qed.

(** C3 (as the code has it).  In both modes, once the engine has gone
    through: if the default-named field file is there it is deleted and
    the call returns; if it is not there the call fails with the
    [FileNotFoundError] of the deletion. *)
Theorem stray_file_deleted_or_call_fails
    (output_directory : option Path)
    (w : World pixel ndarray itkimage) po img tp order ann df f1 f2 f3 :
  EngineRun E atlas_image moving_image annotation_image parameter_lists
    output_directory (files w) po img tp order ann df f1 f2 f3 →
  has_components output_directory df →
  match f3 !! stray_artifact output_directory with
  | Some _ =>
      ∃ v w',
        run_registration E atlas_image moving_image annotation_image
          parameter_lists output_directory w = (Ok v, w') ∧
        files w' !! stray_artifact output_directory = None
  | None =>
      ∃ w',
        run_registration E atlas_image moving_image annotation_image
          parameter_lists output_directory w
        = (Raise (FileNotFoundError (stray_artifact output_directory)), w')
  end.
Proof.
  intros Hrun Hc.
  rewrite (run_registration_reaches_outputs _ _ _ _ _ _ _ _ _ _ _ _ _ _ _ _ Hrun).
  destruct output_directory as [d|].
  - destruct Hc as (c0 & c1 & H0 & H1).
    rewrite (write_outputs_output_directory d df c0 c1) by done.
    cbn [files trace stray_artifact].
    destruct (f3 !! (d // "deformationField.tiff")).
    + eexists _, _. split; [done|]. cbn [files]. apply lookup_delete_eq.
    + by eexists.
  - rewrite write_outputs_working_directory.
    cbn [files trace stray_artifact].
    destruct (f3 !! ["deformationField.tiff"]).
    + eexists _, _. split; [done|]. cbn [files]. apply lookup_delete_eq.
    + by eexists.
Qed.

(** C7 (as the code has it).  When the engine raises in the forward
    registration, the call ends there with the engine's exception as it
    was raised, diagnostic included: one engine call is logged, none
    follows, and the exception is not a [RegistrationError]. *)
Theorem forward_failure_propagates_raw
    (output_directory : option Path)
    (w : World pixel ndarray itkimage) po diagnostic f1 :
  setup_parameter_object (GetDefaultParameterMap E) parameter_lists = Ok po →
  elastix E (image_view_F E moving_image) (image_view_F E atlas_image)
    po output_directory (files w) = (Throws diagnostic, f1) →
  ∃ w',
    run_registration E atlas_image moving_image annotation_image
      parameter_lists output_directory w
    = (Raise (ItkError diagnostic), w') ∧
    files w' = f1 ∧
    trace w' = (trace w ++
      [ElastixUpdate (image_view_F E moving_image)
         (image_view_F E atlas_image) po output_directory])%list ∧
    ∀ d, ItkError diagnostic ≠ RegistrationError d.
Proof.
  intros Hsetup Hfwd. eexists. split.
  - by apply run_registration_forward_failure.
  - by repeat split.
Qed.


End RegistrationClaims.

Lemma returned_field_is_engine_field_witness :
  ∃ result_image transform annotation w',
    run_registration (Toy.engine true) Toy.picture Toy.picture Toy.picture
      Toy.affine_only None Toy.empty_world
    = (Ok (result_image, transform, annotation,
           Toy.displacements Toy.picture), w').
Proof.
  apply (returned_field_is_engine_field (Toy.engine true)
           Toy.picture Toy.picture Toy.picture Toy.affine_only None
           Toy.empty_world
           [{["Transform" := ["AffineTransform"]]}]
           Toy.picture Toy.affine_transform ["3"] Toy.picture
           (Toy.displacements Toy.picture)
           ∅ ∅ {[ ["deformationField.tiff"] := EngineFile ]}).
  - constructor; compute_done.
  - exact I.
  - exists EngineFile. compute_done.
Defined.

(** C2, refuted as stated: the field that comes back is the engine's,
    in the engine's axis order, in both modes; it is neither the field
    with its components exchanged nor the field with its spatial axes
    exchanged. *)
Lemma returned_field_keeps_engine_axes :
  (transformix_deformation (Toy.engine true) Toy.picture Toy.affine_transform
     None ∅).1 = Done (Toy.displacements Toy.picture) ∧
  (run_registration (Toy.engine true) Toy.picture Toy.picture Toy.picture
     Toy.affine_only None Toy.empty_world).1
    = Ok (Toy.picture, Toy.affine_transform, Toy.picture,
          Toy.displacements Toy.picture) ∧
  (run_registration (Toy.engine true) Toy.picture Toy.picture Toy.picture
     Toy.affine_only (Some ["out"]) Toy.empty_world).1
    = Ok (Toy.picture, Toy.affine_transform, Toy.picture,
          Toy.displacements Toy.picture) ∧
  Toy.displacements Toy.picture
    = [[[10; 11]; [20; 21]]; [[30; 31]; [40; 41]]]%Z ∧
  swap_components (Toy.displacements Toy.picture)
    = [[[11; 10]; [21; 20]]; [[31; 30]; [41; 40]]]%Z ∧
  transpose_spatial (Toy.displacements Toy.picture)
    = [[[10; 11]; [30; 31]]; [[20; 21]; [40; 41]]]%Z ∧
  Toy.displacements Toy.picture ≠ swap_components (Toy.displacements Toy.picture) ∧
  Toy.displacements Toy.picture ≠ transpose_spatial (Toy.displacements Toy.picture).
Proof. repeat split; compute_done. Qed.

Lemma stray_file_deleted_or_call_fails_witness :
  ∃ v w',
    run_registration (Toy.engine true) Toy.picture Toy.picture Toy.picture
      Toy.affine_only None Toy.empty_world = (Ok v, w') ∧
    files w' !! ["deformationField.tiff"] = None.
Proof.
  assert (Hrun : EngineRun (Toy.engine true)
           Toy.picture Toy.picture Toy.picture Toy.affine_only None
           (files Toy.empty_world)
           [{["Transform" := ["AffineTransform"]]}]
           Toy.picture Toy.affine_transform ["3"] Toy.picture
           (Toy.displacements Toy.picture)
           ∅ ∅ {[ ["deformationField.tiff"] := EngineFile ]})
    by (constructor; compute_done).
  pose proof (stray_file_deleted_or_call_fails (Toy.engine true)
                _ _ _ _ None Toy.empty_world _ _ _ _ _ _ _ _ _ Hrun I) as H.
  change (stray_artifact None) with ["deformationField.tiff"] in H.
  rewrite lookup_singleton_eq in H. exact H.
Defined.

(** C3, refuted as stated: with an engine that goes through but leaves no
    [deformationField.tiff], the call fails on the deletion, in the
    working-directory mode and in the output-directory mode. *)
Lemma missing_stray_file_fails_the_call :
  (run_registration (Toy.engine false) Toy.picture Toy.picture Toy.picture
     Toy.affine_only None Toy.empty_world).1
    = Raise (FileNotFoundError ["deformationField.tiff"]) ∧
  (run_registration (Toy.engine false) Toy.picture Toy.picture Toy.picture
     Toy.affine_only (Some ["out"]) Toy.empty_world).1
    = Raise (FileNotFoundError ["out"; "deformationField.tiff"]).
Proof. split; compute_done. Qed.

Lemma forward_failure_propagates_raw_witness :
  ∃ w',
    run_registration (Toy.engine true) Toy.narrow Toy.tall Toy.picture
      Toy.affine_only None Toy.empty_world
    = (Raise (ItkError "dimension mismatch between fixed and moving image"), w') ∧
    files w' = ∅ ∧
    trace w' =
      [ElastixUpdate Toy.tall Toy.narrow
         [{["Transform" := ["AffineTransform"]]}] None] ∧
    ∀ d, ItkError "dimension mismatch between fixed and moving image"
         ≠ RegistrationError d.
Proof.
  apply (forward_failure_propagates_raw (Toy.engine true)
           Toy.narrow Toy.tall Toy.picture Toy.affine_only None
           Toy.empty_world [{["Transform" := ["AffineTransform"]]}]
           "dimension mismatch between fixed and moving image" ∅).
  - compute_done.
  - compute_done.
Defined.

(** C7, refuted as stated: the engine's complaint about mismatched images
    reaches the caller as the engine's own exception, not as a
    [RegistrationError]. *)
Lemma engine_failure_escapes_raw :
  (run_registration (Toy.engine true) Toy.narrow Toy.tall Toy.picture
     Toy.affine_only None Toy.empty_world).1
    = Raise (ItkError "dimension mismatch between fixed and moving image") ∧
  ∀ d,
    (run_registration (Toy.engine true) Toy.narrow Toy.tall Toy.picture
       Toy.affine_only None Toy.empty_world).1
    ≠ Raise (RegistrationError d).
Proof.
  assert (H : (run_registration (Toy.engine true) Toy.narrow Toy.tall
                 Toy.picture Toy.affine_only None Toy.empty_world).1
              = Raise (ItkError "dimension mismatch between fixed and moving image"))
    by compute_done.
  split; [exact H|]. intros d. rewrite H. discriminate.
Qed.


(** ** Inversion *)

(** C8.  [invert_transformation] runs the seeded registration once, with
    the reference image as fixed and as moving image and the forward
    transform as initial transform; it returns the image and the inverse
    transform of that run, fails with [InversionError] when the run
    diverges, and with [RegistrationError] on another engine failure. *)
Theorem invert_reruns_seeded_registration {itkimage : Type}
    (seeded_registration :
       itkimage → itkimage → ParameterObject → ParameterObject →
       Inverter.seeded_outcome)
    (reference_image : itkimage) (spec_set forward_transform : ParameterObject) :
  match seeded_registration reference_image reference_image spec_set
          forward_transform with
  | Inverter.Converged inverted_image inverse_transform =>
      Inverter.invert_transformation seeded_registration reference_image
        spec_set forward_transform = Ok (inverted_image, inverse_transform)
  | Inverter.Diverged diagnostic =>
      Inverter.invert_transformation seeded_registration reference_image
        spec_set forward_transform = Raise (InversionError diagnostic)
  | Inverter.Failed diagnostic =>
      Inverter.invert_transformation seeded_registration reference_image
        spec_set forward_transform = Raise (RegistrationError diagnostic)
  end.
Proof.
  unfold Inverter.invert_transformation.
  destruct (seeded_registration _ _ _ _); reflexivity.
Qed.

(** ** The adjustment form *)

Section ViewFacts.
Import View.

Lemma bound_in_range lo hi v : (lo ≤ hi → lo ≤ bound lo hi v ≤ hi)%Z.
Proof. unfold bound. lia. Qed.

Lemma setValue_box v box :
  minimum (setValue v box).1 = minimum box ∧
  maximum (setValue v box).1 = maximum box ∧
  singleStep (setValue v box).1 = singleStep box ∧
  value (setValue v box).1 = bound (minimum box) (maximum box) v.
Proof. done. Qed.

Lemma setValue_silent v box :
  (setValue v box).2 = false → (setValue v box).1 = box.
Proof.
  destruct box as [lo hi st val]. unfold setValue. cbn.
  intros H. apply negb_false_iff, Z.eqb_eq in H. by rewrite H.
Qed.

Lemma init_sound : sound init.
Proof.
  split; [|constructor].
  split; unfold init, setRange, setSingleStep, bound, QSpinBox, QDoubleSpinBox;
    cbn [adjust_moving_image_x adjust_moving_image_y
         adjust_moving_image_rotate minimum maximum singleStep value]; lia.
Qed.

Lemma on_adjust_image_sound w : sound w → sound (_on_adjust_image w).
Proof.
  intros [Hc He]. split.
  - destruct Hc. by split.
  - cbn. apply Forall_app. split; [done|].
    constructor; [|constructor]. destruct Hc. cbn. lia.
Qed.

Lemma emit_reset_sound w : sound w → sound (emit reset_image_signal w).
Proof.
  intros [Hc He]. split.
  - destruct Hc. by split.
  - cbn. apply Forall_app. split; [done|]. by repeat constructor.
Qed.

(** A box changed through [setValue] (a typed value or steps) keeps the
    form sound. *)
Lemma change_x_sound v w :
  sound w → sound (change_x (setValue v (adjust_moving_image_x w)) w).
Proof.
  intros [Hc He]. unfold change_x.
  assert (Hs : sound
    {| adjust_moving_image_x := (setValue v (adjust_moving_image_x w)).1;
       adjust_moving_image_y := adjust_moving_image_y w;
       adjust_moving_image_rotate := adjust_moving_image_rotate w;
       emitted := emitted w |}).
  { split; [|done]. destruct Hc. split; cbn; try done.
    rewrite x_min0, x_max0. apply bound_in_range. lia. }
  destruct (setValue v (adjust_moving_image_x w)).2;
    [by apply on_adjust_image_sound | done].
Qed.

Lemma change_y_sound v w :
  sound w → sound (change_y (setValue v (adjust_moving_image_y w)) w).
Proof.
  intros [Hc He]. unfold change_y.
  assert (Hs : sound
    {| adjust_moving_image_x := adjust_moving_image_x w;
       adjust_moving_image_y := (setValue v (adjust_moving_image_y w)).1;
       adjust_moving_image_rotate := adjust_moving_image_rotate w;
       emitted := emitted w |}).
  { split; [|done]. destruct Hc. split; cbn; try done.
    rewrite y_min0, y_max0. apply bound_in_range. lia. }
  destruct (setValue v (adjust_moving_image_y w)).2;
    [by apply on_adjust_image_sound | done].
Qed.

Lemma change_rotate_sound v w :
  sound w →
  sound (change_rotate (setValue v (adjust_moving_image_rotate w)) w).
Proof.
  intros [Hc He]. unfold change_rotate.
  assert (Hs : sound
    {| adjust_moving_image_x := adjust_moving_image_x w;
       adjust_moving_image_y := adjust_moving_image_y w;
       adjust_moving_image_rotate :=
         (setValue v (adjust_moving_image_rotate w)).1;
       emitted := emitted w |}).
  { split; [|done]. destruct Hc. split; cbn; try done.
    rewrite r_min0, r_max0. apply bound_in_range. lia. }
  destruct (setValue v (adjust_moving_image_rotate w)).2;
    [by apply on_adjust_image_sound | done].
Qed.

Lemma perform_sound w a : sound w → sound (perform w a).
Proof.
  intros Hs. destruct a; cbn [perform]; unfold stepBy,
    _on_reset_image_button_click;
    auto using change_x_sound, change_y_sound, change_rotate_sound,
               emit_reset_sound.
Qed.

Lemma foldl_perform_sound actions w :
  sound w → sound (foldl perform w actions).
Proof.
  revert w. induction actions as [|a actions IH]; intros w Hs; [done|].
  cbn. by apply IH, perform_sound.
Qed.

Lemma session_sound actions : sound (session actions).
Proof. apply foldl_perform_sound, init_sound. Qed.





(** Typing 5000 into the x box emits the bounded value; a second edit
    to the same bounded value emits nothing; a reset emits the values
    as they go back to zero, then the reset signal. *)
Example session_sample :
  emitted (session [EditX 5000; EditX 2000; EditRotate (-4550); StepRotate 1;
                    ClickReset])
  = [adjust_image_signal 2000 0 0;
     adjust_image_signal 2000 0 (-4550);
     adjust_image_signal 2000 0 (-4500);
     adjust_image_signal 0 0 (-4500);
     adjust_image_signal 0 0 0;
     reset_image_signal].
Proof. reflexivity. Qed.

End ViewFacts.

(** * Further properties *)

(** ** The builder, beyond the claims *)

Section BuilderMore.

Variable G : string → engine_result ParameterMap.

Lemma setup_loop_app (s1 s2 : list TransformSpec) (acc : ParameterObject) :
  setup_loop G acc (s1 ++ s2)
  = try p <- setup_loop G acc s1; setup_loop G p s2.
Proof.
  revert acc. induction s1 as [|spec s1 IH]; intros acc; [done|].
  cbn [app setup_loop]. destruct (setup_stage G acc spec); cbn [result_bind];
    [apply IH | done].
Qed.

(** The accumulator only carries the stages built so far along. *)
Lemma setup_stage_shift (spec : TransformSpec) (acc : ParameterObject) :
  setup_stage G acc spec
  = try p <- setup_stage G [] spec; Ok (acc ++ p)%list.
Proof.
  destruct spec as [kind dict]. unfold setup_stage.
  destruct (G kind); cbn; [|done]. by destruct dict.
Qed.

Lemma setup_loop_shift (specs : list TransformSpec) (acc : ParameterObject) :
  setup_loop G acc specs
  = try p <- setup_loop G [] specs; Ok (acc ++ p)%list.
Proof.
  revert acc. induction specs as [|spec specs IH]; intros acc.
  - cbn. by rewrite app_nil_r.
  - cbn [setup_loop]. rewrite (setup_stage_shift spec acc).
    destruct (setup_stage G [] spec) as [p|e]; cbn [result_bind]; [|done].
    rewrite (IH (acc ++ p)%list), (IH p).
    destruct (setup_loop G [] specs); cbn [result_bind]; [|done].
    by rewrite <- app_assoc.
Qed.

Lemma setup_loop_succeeds_iff (specs : list TransformSpec)
    (acc po : ParameterObject) :
  setup_loop G acc specs = Ok po ↔
  Forall (known_kind G) specs.*1 ∧
  ∃ ds : ParameterObject, specs.*2 = Some <$> ds ∧ po = (acc ++ ds)%list.
Proof.
  revert acc. induction specs as [|spec specs IH]; intros acc.
  - cbn. split.
    + intros [= <-]. split; [constructor|]. exists []. by rewrite app_nil_r.
    + intros [_ (ds & Hds & ->)]. destruct ds; [|discriminate].
      by rewrite app_nil_r.
  - cbn [setup_loop fmap list_fmap].
    destruct (setup_stage_cases G acc spec)
      as [(d & Hk & Hd & ->) | [(dg & Hg & ->) | (msg & Hk & Hd & ->)]];
      cbn [result_bind].
    + rewrite IH. split.
      * intros [Hall (ds & Hds & ->)]. split; [by constructor|].
        exists (d :: ds). split; [cbn; by rewrite Hd, Hds|].
        by rewrite <- app_assoc.
      * intros [Hall (ds & Hds & ->)]. apply Forall_cons in Hall as [_ Hall].
        split; [done|]. destruct ds as [|d' ds]; [discriminate|].
        cbn in Hds. rewrite Hd in Hds. injection Hds as -> Hds.
        exists ds. split; [done|]. by rewrite <- app_assoc.
    + split; [discriminate|]. intros [Hall _].
      apply Forall_cons in Hall as [[m Hm] _]. congruence.
    + split; [discriminate|]. intros [_ (ds & Hds & _)].
      destruct ds; cbn in Hds; [discriminate|]. rewrite Hd in Hds.
      discriminate.
Qed.

(** X1.  The builder returns a parameter object exactly when the engine
    documents every kind of the list and every stage carries a
    dictionary, and the object then is the list of these dictionaries, in
    order. *)
Theorem setup_succeeds_iff (specs : list TransformSpec) (po : ParameterObject) :
  setup_parameter_object G specs = Ok po ↔
  Forall (known_kind G) specs.*1 ∧ specs.*2 = Some <$> po.
Proof.
  unfold setup_parameter_object, New. rewrite setup_loop_succeeds_iff.
  split.
  - intros [Hall (ds & Hds & ->)]. by split.
  - intros [Hall Hds]. split; [done|]. by exists po.
Qed.

(** X2.  The first stage the loop cannot get through decides the error,
    whatever follows it: after stages that build, an undocumented kind
    raises the engine's exception, also when the stage has no dictionary
    (the engine is asked first); a documented kind without a dictionary
    raises the [AttributeError]. *)
Theorem first_unresolvable_stage_decides
    (before : list (string * gmap string (list string)))
    (spec : TransformSpec) (after : list TransformSpec) :
  Forall (known_kind G) before.*1 →
  unresolvable G spec →
  setup_parameter_object G (explicit before ++ spec :: after)
  = match G spec.1 with
    | Throws diagnostic => Raise (ItkError diagnostic)
    | Done _ =>
        Raise (AttributeError "'NoneType' object has no attribute 'items'")
    end.
Proof.
  intros Hk Hu. unfold setup_parameter_object.
  rewrite setup_loop_app, setup_loop_explicit by done.
  cbn [result_bind setup_loop]. destruct spec as [kind dict].
  unfold setup_stage, unresolvable in *. cbn [fst snd] in *.
  destruct (G kind) as [m|dg] eqn:Hm; cbn; [|done].
  destruct Hu as [Hu| ->]; [|done].
  destruct Hu. by exists m.
Qed.

(** X3.  Building a concatenated list is building both parts and
    concatenating the objects; a failure in a part is the failure of the
    whole, the first part's first. *)
Theorem setup_concatenates (s1 s2 : list TransformSpec) :
  setup_parameter_object G (s1 ++ s2)
  = try p1 <- setup_parameter_object G s1;
    try p2 <- setup_parameter_object G s2;
    Ok (p1 ++ p2)%list.
Proof.
  unfold setup_parameter_object, New. rewrite setup_loop_app.
  destruct (setup_loop G [] s1) as [p1|e]; cbn [result_bind]; [|done].
  apply setup_loop_shift.
Qed.

End BuilderMore.

(** X4.  The contents of the engine's default maps never reach the
    result: two engines that document the same kinds (and complain alike
    about the others) build the same object, or fail alike, on every
    list. *)
Theorem defaults_do_not_leak
    (G1 G2 : string → engine_result ParameterMap)
    (specs : list TransformSpec) :
  (∀ kind, match G1 kind, G2 kind with
           | Done _, Done _ => True
           | Throws d1, Throws d2 => d1 = d2
           | _, _ => False
           end) →
  setup_parameter_object G1 specs = setup_parameter_object G2 specs.
Proof.
  intros Hagree. unfold setup_parameter_object. generalize New.
  induction specs as [|[kind dict] specs IH]; intros acc; [done|].
  cbn [setup_loop].
  assert (Hstage : setup_stage G1 acc (kind, dict)
                   = setup_stage G2 acc (kind, dict)).
  { unfold setup_stage. specialize (Hagree kind).
    destruct (G1 kind), (G2 kind); cbn; try done. by subst. }
  rewrite Hstage. destruct (setup_stage G2 acc (kind, dict)); cbn; [apply IH|done].
Qed.

Lemma first_unresolvable_stage_decides_witness :
  setup_parameter_object Toy.default_map
    (explicit [("rigid", Toy.rigid_stage)]
       ++ ("spline9", None) :: Toy.affine_only)
  = Raise (ItkError "No default parameter map spline9").
Proof.
  assert (Hu : unresolvable Toy.default_map ("spline9", None)) by (by right).
  pose proof (first_unresolvable_stage_decides Toy.default_map
                [("rigid", Toy.rigid_stage)] ("spline9", None) Toy.affine_only
                ltac:(known_kinds) Hu) as H.
  assert (Hg : Toy.default_map "spline9"
               = Throws "No default parameter map spline9") by compute_done.
  cbn [fst] in H. rewrite Hg in H. exact H.
Defined.

Lemma defaults_do_not_leak_witness :
  setup_parameter_object Toy.default_map Toy.two_orders
  = setup_parameter_object sparse_default_map Toy.two_orders.
Proof.
  apply defaults_do_not_leak. intros kind.
  unfold Toy.default_map, sparse_default_map.
  destruct (decide (kind ∈ Toy.documented)); reflexivity.
Defined.

(** ** The flag-driven builder *)

Section LegacyFacts.

Variable G : string → engine_result ParameterMap.

(** X5.  The flag-driven builder is the list-driven one on the specs its
    flags stand for: each enabled kind, in the order rigid, affine,
    bspline, with the engine's default map, the affine one with
    [MaximumNumberOfIterations] set.  The engine is asked about enabled
    kinds only. *)
Theorem legacy_builder_as_specs
    (rigid_default affine_default bspline_default : gmap string (list string))
    (rigid affine bspline : bool) (affine_iterations : string) :
  (rigid = true → G "rigid" = Done rigid_default) →
  (affine = true → G "affine" = Done affine_default) →
  (bspline = true → G "bspline" = Done bspline_default) →
  Legacy.setup_parameter_object G rigid affine bspline affine_iterations
  = setup_parameter_object G
      (explicit (flag_specs rigid_default affine_default bspline_default
                   rigid affine bspline affine_iterations)) ∧
  Legacy.setup_parameter_object G rigid affine bspline affine_iterations
  = Ok (flag_specs rigid_default affine_default bspline_default
          rigid affine bspline affine_iterations).*2.
Proof.
  intros Hr Ha Hb.
  assert (Hk : Forall (known_kind G)
                 (flag_specs rigid_default affine_default bspline_default
                    rigid affine bspline affine_iterations).*1).
  { unfold flag_specs. rewrite !fmap_app. rewrite !Forall_app.
    repeat split.
    - destruct rigid; [|constructor].
      repeat constructor. eexists. by apply Hr.
    - destruct affine; [|constructor].
      repeat constructor. eexists. by apply Ha.
    - destruct bspline; [|constructor].
      repeat constructor. eexists. by apply Hb. }
  rewrite (setup_parameter_object_explicit G _ Hk).
  assert (Hl : Legacy.setup_parameter_object G rigid affine bspline
                 affine_iterations
               = Ok (flag_specs rigid_default affine_default bspline_default
                       rigid affine bspline affine_iterations).*2);
    [|by rewrite Hl].
  unfold Legacy.setup_parameter_object, flag_specs, New, AddParameterMap.
  destruct rigid, affine, bspline;
    rewrite ?Hr, ?Ha, ?Hb by done; reflexivity.
Qed.

(** X6.  With the affine flag set and the enabled kinds documented, the
    affine stage sits after the rigid one if there is one, reads the
    given iteration count at [MaximumNumberOfIterations], and agrees
    with the engine's affine default on every other key; the object has
    one stage per flag set. *)
Theorem legacy_affine_stage
    (rigid_default affine_default bspline_default : gmap string (list string))
    (rigid bspline : bool) (affine_iterations : string) :
  (rigid = true → G "rigid" = Done rigid_default) →
  G "affine" = Done affine_default →
  (bspline = true → G "bspline" = Done bspline_default) →
  ∃ (po : ParameterObject) (stage : gmap string (list string)),
    Legacy.setup_parameter_object G rigid true bspline affine_iterations
      = Ok po ∧
    GetNumberOfParameterMaps po
      = (Nat.b2n rigid + 1 + Nat.b2n bspline)%nat ∧
    GetParameterMap (Nat.b2n rigid) po = Ok stage ∧
    stage !! "MaximumNumberOfIterations" = Some [affine_iterations] ∧
    ∀ key, key ≠ "MaximumNumberOfIterations" →
           stage !! key = affine_default !! key.
Proof.
  intros Hr Ha Hb.
  exists (flag_specs rigid_default affine_default bspline_default
            rigid true bspline affine_iterations).*2,
         (<["MaximumNumberOfIterations" := [affine_iterations]]> affine_default).
  split.
  { unfold Legacy.setup_parameter_object, flag_specs, New, AddParameterMap.
    rewrite Ha. destruct rigid, bspline; rewrite ?Hr, ?Hb by done; reflexivity. }
  split; [by destruct rigid, bspline|].
  split; [by destruct rigid, bspline|].
  split; [apply lookup_insert_eq|].
  intros key Hkey. by apply lookup_insert_ne.
Qed.

(** X7.  The flag-driven builder fails exactly when a flag is set for a
    kind the engine does not document; a kind whose flag is off is never
    looked up, and with all flags off every engine gives the empty
    object. *)
Theorem legacy_builder_fails_iff
    (rigid affine bspline : bool) (affine_iterations : string) :
  ((∃ e, Legacy.setup_parameter_object G rigid affine bspline
           affine_iterations = Raise e) ↔
   (rigid = true ∧ ¬ known_kind G "rigid") ∨
   (affine = true ∧ ¬ known_kind G "affine") ∨
   (bspline = true ∧ ¬ known_kind G "bspline")) ∧
  Legacy.setup_parameter_object G false false false affine_iterations = Ok [].
Proof.
  split; [|reflexivity].
  unfold Legacy.setup_parameter_object, known_kind, New, AddParameterMap.
  destruct rigid, affine, bspline;
    destruct (G "rigid") as [mr|dr]; destruct (G "affine") as [ma|da];
    destruct (G "bspline") as [mb|db]; cbn;
    (split;
     [ intros [e He]; try discriminate;
       first [ left; split; [done|]; intros [? ?]; discriminate
             | right; left; split; [done|]; intros [? ?]; discriminate
             | right; right; split; [done|]; intros [? ?]; discriminate ]
     | intros [[Hf Hn]|[[Hf Hn]|[Hf Hn]]]; try discriminate;
       first [ by eexists | destruct Hn; by eexists ] ]).
Qed.

End LegacyFacts.

Lemma legacy_builder_as_specs_witness :
  Legacy.setup_parameter_object Toy.default_map true true false "2048"
  = Ok [Toy.default_of "rigid";
        <["MaximumNumberOfIterations" := ["2048"]]> (Toy.default_of "affine")].
Proof.
  apply (legacy_builder_as_specs Toy.default_map
           (Toy.default_of "rigid") (Toy.default_of "affine") ∅
           true true false "2048").
  - intros _. compute_done.
  - intros _. compute_done.
  - intros H. discriminate H.
Defined.

Lemma legacy_affine_stage_witness :
  ∃ (po : ParameterObject) (stage : gmap string (list string)),
    Legacy.setup_parameter_object Toy.default_map false true true "512"
      = Ok po ∧
    GetNumberOfParameterMaps po = 2 ∧
    GetParameterMap 0 po = Ok stage ∧
    stage !! "MaximumNumberOfIterations" = Some ["512"] ∧
    ∀ key, key ≠ "MaximumNumberOfIterations" →
           stage !! key = Toy.default_of "affine" !! key.
Proof.
  apply (legacy_affine_stage Toy.default_map
           ∅ (Toy.default_of "affine") (Toy.default_of "bspline")
           false true "512").
  - intros H. discriminate H.
  - compute_done.
  - intros _. compute_done.
Defined.

(** ** The comparison helper of the tests *)

Lemma compare_submaps_passes (a b : ParameterObject) (indices : list nat) :
  Forall (λ i, i < length a ∧ i < length b) indices →
  (Tests.compare_submaps a b indices = Tests.Passed ↔
   ∀ i, i ∈ indices → a !! i = b !! i) ∧
  (∀ e, Tests.compare_submaps a b indices ≠ Tests.Errored e).
Proof.
  induction 1 as [|i indices [Ha Hb] _ [IHp IHe]]; cbn.
  - split; [|done]. split; [intros _ i Hi; inversion Hi | done].
  - unfold GetParameterMap.
    destruct (lookup_lt_is_Some_2 a i Ha) as [ma Hma].
    destruct (lookup_lt_is_Some_2 b i Hb) as [mb Hmb].
    rewrite Hma, Hmb. destruct (decide (ma = mb)) as [->|Hne].
    + split; [|done]. rewrite IHp. split.
      * intros Hall j Hj. apply elem_of_cons in Hj as [->|Hj];
          [congruence | by apply Hall].
      * intros Hall j Hj. apply Hall. by right.
    + split; [|done]. split; [discriminate|].
      intros Hall. destruct Hne.
      specialize (Hall i ltac:(by left)). congruence.
Qed.

(** X8.  [compare_parameter_objects] passes exactly on equal parameter
    objects (as many maps, with the same keys and values at each index),
    and its lookups never go out of range. *)
Theorem compare_parameter_objects_passes_iff (a b : ParameterObject) :
  (Tests.compare_parameter_objects a b = Tests.Passed ↔ a = b) ∧
  (∀ e, Tests.compare_parameter_objects a b ≠ Tests.Errored e).
Proof.
  unfold Tests.compare_parameter_objects, GetNumberOfParameterMaps.
  destruct (decide (length a = length b)) as [Hlen|Hlen].
  - assert (Hin : Forall (λ i, i < length a ∧ i < length b) (seq 0 (length a))).
    { apply Forall_forall. intros i Hi. apply elem_of_seq in Hi. lia. }
    destruct (compare_submaps_passes a b _ Hin) as [Hp He].
    split; [|done]. rewrite Hp. split.
    + intros Hall. apply list_eq. intros i.
      destruct (decide (i < length a)) as [Hi|Hi].
      * apply Hall, elem_of_seq. lia.
      * rewrite !lookup_ge_None_2 by lia. done.
    + by intros ->.
  - split; [|done]. split; [discriminate|]. intros ->. done.
Qed.

(** ** The registration call, beyond the claims *)

Lemma SetParameter_same_but key (v : list string) (po : ParameterObject) :
  same_but key (SetParameter key v po) po.
Proof.
  unfold same_but, SetParameter. split; [by rewrite length_fmap|].
  intros i ma mb k Ha Hb Hk. rewrite list_lookup_fmap, Hb in Ha.
  injection Ha as <-. by apply lookup_insert_ne.
Qed.

Section ComponentFacts.

Context {pixel : Type}.






End ComponentFacts.


Section RegistrationMore.

Context {pixel ndarray itkimage : Type}.
Variable E : Engine pixel ndarray itkimage.

Variables atlas_image moving_image annotation_image : ndarray.
Variable parameter_lists : list TransformSpec.

Lemma component_raises (k : nat) (df : @Field pixel) e :
  component k df = Raise e → e = IndexError "index is out of bounds for axis 2".
Proof. unfold component. destruct (mapM _ df); congruence. Qed.

(** The last block, whatever its end: what it raises, what it logs, and
    which files it can have touched. *)
Lemma write_outputs_cases (output_directory : option Path) (df : @Field pixel)
    (w : World pixel ndarray itkimage) r w' :
  write_outputs output_directory df w = (r, w') →
  (∀ e, r = Raise e → raised_by_code e) ∧
  (∃ rest, trace w' = (trace w ++ rest)%list) ∧
  (∀ p, p ≠ stray_artifact output_directory →
        (∀ d, output_directory = Some d →
              p ≠ d // "deformation_field_0.tiff" ∧
              p ≠ d // "deformation_field_1.tiff") →
        files w' !! p = files w !! p).
Proof.
  destruct output_directory as [d|]; cbn [stray_artifact].
  - unfold write_outputs, bind, lift.
    destruct (component 1 df) as [c1|e1] eqn:H1.
    + unfold imwrite at 1. cbn [files trace].
      destruct (component 0 df) as [c0|e0] eqn:H0.
      * unfold imwrite, unlink, log. cbn [files trace].
        destruct (_ !! (d // "deformationField.tiff")); intros [= <- <-];
          cbn [files trace]; (split; [|split]).
        -- intros e [=].
        -- eexists. rewrite <- !app_assoc. reflexivity.
        -- intros p Hs Hd. destruct (Hd d eq_refl) as [Hp0 Hp1].
           rewrite lookup_delete_ne, !lookup_insert_ne by done. done.
        -- intros e [= <-]. exact I.
        -- eexists. rewrite <- !app_assoc. reflexivity.
        -- intros p Hs Hd. destruct (Hd d eq_refl) as [Hp0 Hp1].
           rewrite !lookup_insert_ne by done. done.
      * intros [= <- <-]. cbn [files trace]. unfold log. split; [|split].
        -- intros e [= <-]. apply component_raises in H0 as ->. exact I.
        -- by eexists.
        -- intros p Hs Hd. destruct (Hd d eq_refl) as [Hp0 Hp1].
           rewrite lookup_insert_ne by done. done.
    + intros [= <- <-]. split; [|split].
      * intros e [= <-]. apply component_raises in H1 as ->. exact I.
      * exists []. by rewrite app_nil_r.
      * done.
  - rewrite write_outputs_working_directory.
    destruct (files w !! ["deformationField.tiff"]); intros [= <- <-];
      cbn [files trace]; (split; [|split]).
    + intros e [=].
    + by eexists.
    + intros p Hs _. by rewrite lookup_delete_ne.
    + intros e [= <-]. exact I.
    + by eexists.
    + done.
Qed.



(** X12.  When every stage of the transform the engine produced holds the
    same interpolation order, the transform that comes back is that
    transform, entry for entry. *)
Theorem uniform_orders_restored
    (output_directory : option Path)
    (w : World pixel ndarray itkimage) po img tp order ann df f1 f2 f3
    (v : list string) :
  EngineRun E atlas_image moving_image annotation_image parameter_lists
    output_directory (files w) po img tp order ann df f1 f2 f3 →
  Forall (λ m : gmap string (list string), m !! order_key = Some v) tp →
  has_components output_directory df →
  is_Some (f3 !! stray_artifact output_directory) →
  ∃ w',
    run_registration E atlas_image moving_image annotation_image
      parameter_lists output_directory w
    = (Ok (asarray E img, tp, asarray E ann, df), w').
Proof.
  intros Hrun Hall Hc [x Hx].
  assert (Hv : order = v).
  { destruct Hrun as [_ _ Ho _ _]. revert Ho. unfold GetParameter.
    destruct tp as [|m tp']; [discriminate|]. cbn.
    apply Forall_cons in Hall as [-> _]. by intros [= <-]. }
  subst order.
  rewrite (run_registration_reaches_outputs _ _ _ _ _ _ _ _ _ _ _ _ _ _ _ _ Hrun).
  rewrite (SetParameter_uniform _ _ _ Hall).
  destruct output_directory as [d|].
  - destruct Hc as (c0 & c1 & H0 & H1).
    rewrite (write_outputs_output_directory d df c0 c1) by done.
    cbn [files trace stray_artifact] in *. rewrite Hx. by eexists.
  - rewrite write_outputs_working_directory.
    cbn [files trace stray_artifact] in *. rewrite Hx. by eexists.
Qed.

(** X13.  In every run that returns, the transform that comes back has as
    many stages as the engine produced and agrees with them on every key
    other than [FinalBSplineInterpolationOrder]; at that key every stage
    holds the value read at stage 0. *)
Theorem restore_touches_order_only
    (output_directory : option Path)
    (w : World pixel ndarray itkimage) po img tp order ann df f1 f2 f3 :
  EngineRun E atlas_image moving_image annotation_image parameter_lists
    output_directory (files w) po img tp order ann df f1 f2 f3 →
  has_components output_directory df →
  is_Some (f3 !! stray_artifact output_directory) →
  ∃ transform w',
    run_registration E atlas_image moving_image annotation_image
      parameter_lists output_directory w
    = (Ok (asarray E img, transform, asarray E ann, df), w') ∧
    same_but order_key transform tp ∧
    Forall (λ m : gmap string (list string), m !! order_key = Some order)
      transform.
Proof.
  intros Hrun Hc [x Hx].
  rewrite (run_registration_reaches_outputs _ _ _ _ _ _ _ _ _ _ _ _ _ _ _ _ Hrun).
  exists (SetParameter order_key order tp).
  destruct output_directory as [d|].
  - destruct Hc as (c0 & c1 & H0 & H1).
    rewrite (write_outputs_output_directory d df c0 c1) by done.
    cbn [files trace stray_artifact] in *. rewrite Hx. eexists.
    split; [done|].
    split; [apply SetParameter_same_but | apply SetParameter_every_stage].
  - rewrite write_outputs_working_directory.
    cbn [files trace stray_artifact] in *. rewrite Hx. eexists.
    split; [done|].
    split; [apply SetParameter_same_but | apply SetParameter_every_stage].
Qed.

(** X14.  Once the engine has gone through, and however the last block
    ends: the annotation image was transformed with a transform that
    reads "0" at every stage and is the engine's transform on every other
    key; it was transformed after the forward registration and before
    the deformation field was computed. *)
Theorem annotation_transformed_at_order_zero
    (output_directory : option Path)
    (w : World pixel ndarray itkimage) po img tp order ann df f1 f2 f3 :
  EngineRun E atlas_image moving_image annotation_image parameter_lists
    output_directory (files w) po img tp order ann df f1 f2 f3 →
  ∃ r w' zeroed restored rest,
    run_registration E atlas_image moving_image annotation_image
      parameter_lists output_directory w = (r, w') ∧
    trace w' =
      (trace w ++
       [ElastixUpdate (image_view_F E moving_image)
          (image_view_F E atlas_image) po output_directory;
        TransformixFilterCall (astype_float32 E annotation_image) zeroed;
        TransformixUpdate (image_view_F E moving_image) restored
          output_directory] ++ rest)%list ∧
    Forall (λ m : gmap string (list string), m !! order_key = Some ["0"])
      zeroed ∧
    same_but order_key zeroed tp.
Proof.
  intros Hrun.
  rewrite (run_registration_reaches_outputs _ _ _ _ _ _ _ _ _ _ _ _ _ _ _ _ Hrun).
  destruct (write_outputs output_directory df _) as [r0 w0] eqn:Hout.
  apply write_outputs_cases in Hout as (_ & [rest Hrest] & _).
  cbn [trace] in Hrest. unfold engine_calls in Hrest.
  exists (match r0 with
          | Ok _ => Ok (asarray E img, SetParameter order_key order tp,
                        asarray E ann, df)
          | Raise e => Raise e
          end), w0,
         (SetParameter order_key ["0"] tp),
         (SetParameter order_key order tp), rest.
  split; [by destruct r0|].
  split; [by rewrite Hrest, <- app_assoc|].
  split; [apply SetParameter_every_stage | apply SetParameter_same_but].
Qed.

(** X15.  With an output directory, a field whose vectors have no second
    component ends the call with an [IndexError] before anything is
    written: the files are as the engine left them, its own field file
    included, and the log ends with the three engine calls. *)
Theorem short_vectors_write_nothing
    (d : Path) (w : World pixel ndarray itkimage)
    po img tp order ann df f1 f2 f3 :
  EngineRun E atlas_image moving_image annotation_image parameter_lists
    (Some d) (files w) po img tp order ann df f1 f2 f3 →
  (∀ c1, component 1 df ≠ Ok c1) →
  run_registration E atlas_image moving_image annotation_image
    parameter_lists (Some d) w
  = (Raise (IndexError "index is out of bounds for axis 2"),
     {| files := f3;
        trace := (trace w ++
          engine_calls E atlas_image moving_image annotation_image (Some d)
            po tp order)%list |}).
Proof.
  intros Hrun Hno.
  rewrite (run_registration_reaches_outputs _ _ _ _ _ _ _ _ _ _ _ _ _ _ _ _ Hrun).
  unfold write_outputs, bind, lift.
  destruct (component 1 df) as [c1|e] eqn:H1; [by destruct (Hno c1)|].
  by apply component_raises in H1 as ->.
Qed.

(** X16.  Once the engine has gone through, and however the last block
    ends, the call leaves every file as the engine left it, except the
    engine's own field file and, with an output directory, the two
    component files. *)
Theorem other_files_untouched
    (output_directory : option Path)
    (w : World pixel ndarray itkimage) po img tp order ann df f1 f2 f3
    (p : Path) :
  EngineRun E atlas_image moving_image annotation_image parameter_lists
    output_directory (files w) po img tp order ann df f1 f2 f3 →
  p ≠ stray_artifact output_directory →
  (∀ d, output_directory = Some d →
        p ≠ d // "deformation_field_0.tiff" ∧
        p ≠ d // "deformation_field_1.tiff") →
  ∃ r w',
    run_registration E atlas_image moving_image annotation_image
      parameter_lists output_directory w = (r, w') ∧
    files w' !! p = f3 !! p.
Proof.
  intros Hrun Hs Hd.
  rewrite (run_registration_reaches_outputs _ _ _ _ _ _ _ _ _ _ _ _ _ _ _ _ Hrun).
  destruct (write_outputs output_directory df _) as [r0 w0] eqn:Hout.
  apply write_outputs_cases in Hout as (_ & _ & Hframe).
  specialize (Hframe p Hs Hd). cbn [files] in Hframe.
  destruct r0 as [[]|e]; eexists _, _; (split; [reflexivity|exact Hframe]).
Qed.

(** X17.  Without an output directory the call writes no file: when the
    engine has gone through, the files at the end are the engine's minus
    its field file, whether the call returns or fails on the deletion,
    and the only file operation logged is that deletion. *)
Theorem working_directory_mode_only_deletes
    (w : World pixel ndarray itkimage) po img tp order ann df f1 f2 f3 :
  EngineRun E atlas_image moving_image annotation_image parameter_lists
    None (files w) po img tp order ann df f1 f2 f3 →
  ∃ r w',
    run_registration E atlas_image moving_image annotation_image
      parameter_lists None w = (r, w') ∧
    files w' = delete ["deformationField.tiff"] f3 ∧
    trace w' =
      (trace w ++
       engine_calls E atlas_image moving_image annotation_image None
         po tp order ++
       [Unlink ["deformationField.tiff"]])%list.
Proof.
  intros Hrun.
  rewrite (run_registration_reaches_outputs _ _ _ _ _ _ _ _ _ _ _ _ _ _ _ _ Hrun).
  rewrite write_outputs_working_directory. cbn [files trace].
  destruct (f3 !! ["deformationField.tiff"]) eqn:Hx; eexists _, _;
    (split; [reflexivity|]); cbn [files trace]; rewrite <- app_assoc;
    (split; [|reflexivity]); [done|].
  symmetry. by apply delete_id.
Qed.

(** X18.  When the annotation transform raises, the call ends with the
    engine's exception after two engine calls: the deformation field is
    not computed, and nothing is written or deleted. *)
Theorem annotation_failure_ends_call
    (output_directory : option Path)
    (w : World pixel ndarray itkimage) po img tp order diagnostic f1 f2 :
  setup_parameter_object (GetDefaultParameterMap E) parameter_lists = Ok po →
  elastix E (image_view_F E moving_image) (image_view_F E atlas_image)
    po output_directory (files w) = (Done (img, tp), f1) →
  GetParameter 0 order_key tp = Ok order →
  transformix_filter E (astype_float32 E annotation_image)
    (SetParameter order_key ["0"] tp) f1 = (Throws diagnostic, f2) →
  run_registration E atlas_image moving_image annotation_image
    parameter_lists output_directory w
  = (Raise (ItkError diagnostic),
     {| files := f2;
        trace := (trace w ++
          [ElastixUpdate (image_view_F E moving_image)
             (image_view_F E atlas_image) po output_directory;
           TransformixFilterCall (astype_float32 E annotation_image)
             (SetParameter order_key ["0"] tp)])%list |}).
Proof.
  intros Hsetup Hfwd Horder Hann.
  unfold run_registration, bind, lift. rewrite Hsetup.
  unfold run_elastix. cbn [files trace]. rewrite Hfwd.
  cbn [from_engine files trace]. rewrite Horder.
  unfold run_transformix_filter. cbn [files trace]. rewrite Hann.
  cbn [from_engine]. unfold log. cbn [trace].
  by rewrite <- app_assoc.
Qed.

(** X19.  When the deformation run raises, the call ends with the
    engine's exception after the three engine calls, the transform it was
    given being the restored one; no component file is written and the
    engine's files are not cleaned up. *)
Theorem deformation_failure_ends_call
    (output_directory : option Path)
    (w : World pixel ndarray itkimage) po img tp order ann diagnostic f1 f2 f3 :
  setup_parameter_object (GetDefaultParameterMap E) parameter_lists = Ok po →
  elastix E (image_view_F E moving_image) (image_view_F E atlas_image)
    po output_directory (files w) = (Done (img, tp), f1) →
  GetParameter 0 order_key tp = Ok order →
  transformix_filter E (astype_float32 E annotation_image)
    (SetParameter order_key ["0"] tp) f1 = (Done ann, f2) →
  transformix_deformation E (image_view_F E moving_image)
    (SetParameter order_key order tp) output_directory f2
    = (Throws diagnostic, f3) →
  run_registration E atlas_image moving_image annotation_image
    parameter_lists output_directory w
  = (Raise (ItkError diagnostic),
     {| files := f3;
        trace := (trace w ++
          engine_calls E atlas_image moving_image annotation_image
            output_directory po tp order)%list |}).
Proof.
  intros Hsetup Hfwd Horder Hann Hdef.
  unfold run_registration, bind, lift. rewrite Hsetup.
  unfold run_elastix. cbn [files trace]. rewrite Hfwd.
  cbn [from_engine files trace]. rewrite Horder.
  unfold run_transformix_filter. cbn [files trace]. rewrite Hann.
  cbn [from_engine files trace].
  unfold run_transformix_deformation. cbn [files trace].
  rewrite SetParameter_twice, Hdef. cbn [from_engine].
  unfold engine_calls, log. cbn [trace].
  by rewrite <- !app_assoc.
Qed.

End RegistrationMore.

(** The run of the small engine on [Toy.affine_only] in the working
    directory, and on [Toy.two_orders]. *)
Ltac toy_run := constructor; compute_done.



Lemma uniform_orders_restored_witness :
  ∃ w',
    run_registration (Toy.engine true) Toy.picture Toy.picture Toy.picture
      Toy.affine_only None Toy.empty_world
    = (Ok (Toy.picture, Toy.affine_transform, Toy.picture,
           Toy.displacements Toy.picture), w').
Proof.
  apply (uniform_orders_restored (Toy.engine true)
           Toy.picture Toy.picture Toy.picture Toy.affine_only None
           Toy.empty_world
           [{["Transform" := ["AffineTransform"]]}]
           Toy.picture Toy.affine_transform ["3"] Toy.picture
           (Toy.displacements Toy.picture)
           ∅ ∅ {[ ["deformationField.tiff"] := EngineFile ]} ["3"]).
  - toy_run.
  - apply Forall_cons_2; [compute_done | apply Forall_nil_2].
  - exact I.
  - exists EngineFile. compute_done.
Defined.

Lemma restore_touches_order_only_witness :
  ∃ transform w',
    run_registration (Toy.engine true) Toy.picture Toy.picture Toy.picture
      Toy.two_orders None Toy.empty_world
    = (Ok (Toy.picture, transform, Toy.picture,
           Toy.displacements Toy.picture), w') ∧
    same_but order_key transform Toy.produced_transform ∧
    Forall (λ m : gmap string (list string), m !! order_key = Some ["3"])
      transform.
Proof.
  apply (restore_touches_order_only (Toy.engine true)
           Toy.picture Toy.picture Toy.picture Toy.two_orders None
           Toy.empty_world
           Toy.produced_transform
           Toy.picture Toy.produced_transform ["3"] Toy.picture
           (Toy.displacements Toy.picture)
           ∅ ∅ {[ ["deformationField.tiff"] := EngineFile ]}).
  - toy_run.
  - exact I.
  - exists EngineFile. compute_done.
Defined.

Lemma annotation_transformed_at_order_zero_witness :
  ∃ r w' zeroed restored rest,
    run_registration (Toy.engine true) Toy.picture Toy.picture Toy.picture
      Toy.two_orders None Toy.empty_world = (r, w') ∧
    trace w' =
      (trace Toy.empty_world ++
       [ElastixUpdate Toy.picture Toy.picture Toy.produced_transform None;
        TransformixFilterCall Toy.picture zeroed;
        TransformixUpdate Toy.picture restored None] ++ rest)%list ∧
    Forall (λ m : gmap string (list string), m !! order_key = Some ["0"])
      zeroed ∧
    same_but order_key zeroed Toy.produced_transform.
Proof.
  apply (annotation_transformed_at_order_zero (Toy.engine true)
           Toy.picture Toy.picture Toy.picture Toy.two_orders None
           Toy.empty_world
           Toy.produced_transform
           Toy.picture Toy.produced_transform ["3"] Toy.picture
           (Toy.displacements Toy.picture)
           ∅ ∅ {[ ["deformationField.tiff"] := EngineFile ]}).
  toy_run.
Defined.

Lemma short_vectors_write_nothing_witness :
  (run_registration (toy_variant false false true)
     Toy.picture Toy.picture Toy.picture Toy.affine_only (Some ["out"])
     Toy.empty_world).1
  = Raise (IndexError "index is out of bounds for axis 2").
Proof.
  rewrite (short_vectors_write_nothing (toy_variant false false true)
             Toy.picture Toy.picture Toy.picture Toy.affine_only ["out"]
             Toy.empty_world
             [{["Transform" := ["AffineTransform"]]}]
             Toy.picture Toy.affine_transform ["3"] Toy.picture
             [[[10]; [20]]; [[30]; [40]]]%Z
             {[ ["out"; "TransformParameters.0.txt"] := EngineFile ]}
             {[ ["out"; "TransformParameters.0.txt"] := EngineFile ]}
             (<[ ["out"; "deformationField.tiff"] := EngineFile ]>
                {[ ["out"; "TransformParameters.0.txt"] := EngineFile ]})).
  - reflexivity.
  - toy_run.
  - intros c1 H.
    assert (Hno : component 1 ([[[10]; [20]]; [[30]; [40]]]%Z : @Field Z)
                  = Raise (IndexError "index is out of bounds for axis 2"))
      by compute_done.
    rewrite Hno in H. discriminate H.
Defined.

Lemma other_files_untouched_witness :
  ∃ r w',
    run_registration (Toy.engine true) Toy.picture Toy.picture Toy.picture
      Toy.affine_only (Some ["out"]) Toy.empty_world = (r, w') ∧
    files w' !! ["out"; "TransformParameters.0.txt"] = Some EngineFile.
Proof.
  destruct (other_files_untouched (Toy.engine true)
              Toy.picture Toy.picture Toy.picture Toy.affine_only
              (Some ["out"]) Toy.empty_world
              [{["Transform" := ["AffineTransform"]]}]
              Toy.picture Toy.affine_transform ["3"] Toy.picture
              (Toy.displacements Toy.picture)
              {[ ["out"; "TransformParameters.0.txt"] := EngineFile ]}
              {[ ["out"; "TransformParameters.0.txt"] := EngineFile ]}
              (<[ ["out"; "deformationField.tiff"] := EngineFile ]>
                 {[ ["out"; "TransformParameters.0.txt"] := EngineFile ]})
              ["out"; "TransformParameters.0.txt"])
    as (r & w' & Hrun & Hp).
  - toy_run.
  - compute_done.
  - intros d [= <-]. split; compute_done.
  - exists r, w'. split; [exact Hrun|]. rewrite Hp. compute_done.
Defined.

Lemma working_directory_mode_only_deletes_witness :
  ∃ r w',
    run_registration (Toy.engine true) Toy.picture Toy.picture Toy.picture
      Toy.affine_only None Toy.empty_world = (r, w') ∧
    files w' = ∅.
Proof.
  destruct (working_directory_mode_only_deletes (Toy.engine true)
              Toy.picture Toy.picture Toy.picture Toy.affine_only
              Toy.empty_world
              [{["Transform" := ["AffineTransform"]]}]
              Toy.picture Toy.affine_transform ["3"] Toy.picture
              (Toy.displacements Toy.picture)
              ∅ ∅ {[ ["deformationField.tiff"] := EngineFile ]})
    as (r & w' & Hrun & Hf & _).
  - toy_run.
  - exists r, w'. split; [exact Hrun|]. rewrite Hf. compute_done.
Defined.

Lemma annotation_failure_ends_call_witness :
  (run_registration (toy_variant true false false)
     Toy.picture Toy.picture Toy.picture Toy.affine_only None
     Toy.empty_world).1
  = Raise (ItkError "transformix: unsupported pixel type").
Proof.
  rewrite (annotation_failure_ends_call (toy_variant true false false)
             Toy.picture Toy.picture Toy.picture Toy.affine_only None
             Toy.empty_world
             [{["Transform" := ["AffineTransform"]]}]
             Toy.picture Toy.affine_transform ["3"]
             "transformix: unsupported pixel type" ∅ ∅);
    [reflexivity | compute_done ..].
Defined.

Lemma deformation_failure_ends_call_witness :
  (run_registration (toy_variant false true false)
     Toy.picture Toy.picture Toy.picture Toy.affine_only None
     Toy.empty_world).1
  = Raise (ItkError "transformix: could not compute the deformation field").
Proof.
  rewrite (deformation_failure_ends_call (toy_variant false true false)
             Toy.picture Toy.picture Toy.picture Toy.affine_only None
             Toy.empty_world
             [{["Transform" := ["AffineTransform"]]}]
             Toy.picture Toy.affine_transform ["3"] Toy.picture
             "transformix: could not compute the deformation field" ∅ ∅ ∅);
    [reflexivity | compute_done ..].
Defined.

(** ** The registration call of the older [register.py] *)

(** X20.  With the enabled kinds documented, the older [run_registration]
    runs the engine once, on the fixed image first and the moving image
    second, with the pipeline its flags stand for; it returns the engine's
    image and the engine's transform as it is, or lets the engine's
    exception out. *)
Theorem legacy_run_gives_engine_result {pixel ndarray itkimage : Type}
    (E : Engine pixel ndarray itkimage)
    (elastix_console :
       bool → itkimage → itkimage → ParameterObject → gmap Path (File pixel) →
       engine_result (itkimage * ParameterObject) * gmap Path (File pixel))
    (rigid_default affine_default bspline_default : gmap string (list string))
    (fixed_image moving_image : ndarray)
    (rigid affine bspline : bool) (affine_iterations : string) (log : bool)
    (fs : gmap Path (File pixel)) :
  (rigid = true → GetDefaultParameterMap E "rigid" = Done rigid_default) →
  (affine = true → GetDefaultParameterMap E "affine" = Done affine_default) →
  (bspline = true → GetDefaultParameterMap E "bspline" = Done bspline_default) →
  LegacyRegistration.run_registration E elastix_console
    fixed_image moving_image rigid affine bspline affine_iterations log fs
  = match elastix_console log (image_view_F E fixed_image)
            (image_view_F E moving_image)
            (flag_specs rigid_default affine_default bspline_default
               rigid affine bspline affine_iterations).*2 fs with
    | (Done (result_image, transform), fs') =>
        (Ok (asarray E result_image, transform), fs')
    | (Throws diagnostic, fs') => (Raise (ItkError diagnostic), fs')
    end.
Proof.
  intros Hr Ha Hb.
  assert (Hl : Legacy.setup_parameter_object (GetDefaultParameterMap E)
                 rigid affine bspline affine_iterations
               = Ok (flag_specs rigid_default affine_default bspline_default
                       rigid affine bspline affine_iterations).*2).
  { unfold Legacy.setup_parameter_object, flag_specs, New, AddParameterMap.
    destruct rigid, affine, bspline;
      rewrite ?Hr, ?Ha, ?Hb by done; reflexivity. }
  unfold LegacyRegistration.run_registration. rewrite Hl.
  destruct (elastix_console _ _ _ _ _) as [[[img tp]|dg] fs']; reflexivity.
Qed.

Lemma legacy_run_gives_engine_result_witness :
  LegacyRegistration.run_registration (Toy.engine true)
    (λ _ : bool, λ first second po fs,
       elastix (Toy.engine true) first second po None fs)
    Toy.picture Toy.picture false true false "2048" true ∅
  = (Ok (Toy.picture,
         [<["MaximumNumberOfIterations" := ["2048"]]> (Toy.default_of "affine")]),
     ∅).
Proof.
  rewrite (legacy_run_gives_engine_result (Toy.engine true) _
             ∅ (Toy.default_of "affine") ∅).
  - compute_done.
  - intros H. discriminate H.
  - intros _. compute_done.
  - intros H. discriminate H.
Defined.

(** ** The adjustment form, beyond the claim *)

Section ViewMore.
Import View.

Lemma listener_view_snoc (signals : list Signal) (s : Signal) :
  listener_view (signals ++ [s]) = follow (listener_view signals) s.
Proof. unfold listener_view. by rewrite foldl_app. Qed.

Lemma on_adjust_image_synced w : synced (_on_adjust_image w).
Proof. unfold synced. cbn. by rewrite listener_view_snoc. Qed.

Lemma change_x_synced v w :
  synced w → synced (change_x (setValue v (adjust_moving_image_x w)) w).
Proof.
  intros Hs. unfold change_x.
  destruct (setValue v (adjust_moving_image_x w)).2 eqn:Hch;
    [apply on_adjust_image_synced|].
  apply setValue_silent in Hch. rewrite Hch. exact Hs.
Qed.

Lemma change_y_synced v w :
  synced w → synced (change_y (setValue v (adjust_moving_image_y w)) w).
Proof.
  intros Hs. unfold change_y.
  destruct (setValue v (adjust_moving_image_y w)).2 eqn:Hch;
    [apply on_adjust_image_synced|].
  apply setValue_silent in Hch. rewrite Hch. exact Hs.
Qed.

Lemma change_rotate_synced v w :
  synced w →
  synced (change_rotate (setValue v (adjust_moving_image_rotate w)) w).
Proof.
  intros Hs. unfold change_rotate.
  destruct (setValue v (adjust_moving_image_rotate w)).2 eqn:Hch;
    [apply on_adjust_image_synced|].
  apply setValue_silent in Hch. rewrite Hch. exact Hs.
Qed.

Lemma setValue_zero box :
  (minimum box ≤ 0 ≤ maximum box)%Z →
  setValue 0 box
  = ({| minimum := minimum box; maximum := maximum box;
        singleStep := singleStep box; value := 0 |},
     negb (0 =? value box)%Z).
Proof.
  intros H. unfold setValue, bound.
  by replace (Z.max (minimum box) (Z.min (maximum box) 0)) with 0%Z by lia.
Qed.

(** Bringing one box to zero: the box reads zero, the others are as they
    were, and one adjustment signal goes out if the box was not at zero. *)
Lemma change_x_zero w :
  (minimum (adjust_moving_image_x w) ≤ 0 ≤ maximum (adjust_moving_image_x w))%Z →
  ∃ adj,
    value (adjust_moving_image_x
             (change_x (setValue 0 (adjust_moving_image_x w)) w)) = 0%Z ∧
    adjust_moving_image_y (change_x (setValue 0 (adjust_moving_image_x w)) w)
      = adjust_moving_image_y w ∧
    adjust_moving_image_rotate
      (change_x (setValue 0 (adjust_moving_image_x w)) w)
      = adjust_moving_image_rotate w ∧
    emitted (change_x (setValue 0 (adjust_moving_image_x w)) w)
      = (emitted w ++ adj)%list ∧
    length adj = (if (0 =? value (adjust_moving_image_x w))%Z then 0 else 1) ∧
    Forall (λ s, is_reset s = false) adj.
Proof.
  intros H. rewrite setValue_zero by done. unfold change_x. cbn [fst snd].
  destruct (0 =? value (adjust_moving_image_x w))%Z; cbn [negb].
  - exists []. cbn. by rewrite app_nil_r.
  - eexists [_]. cbn. repeat split; by repeat constructor.
Qed.

Lemma change_y_zero w :
  (minimum (adjust_moving_image_y w) ≤ 0 ≤ maximum (adjust_moving_image_y w))%Z →
  ∃ adj,
    value (adjust_moving_image_y
             (change_y (setValue 0 (adjust_moving_image_y w)) w)) = 0%Z ∧
    adjust_moving_image_x (change_y (setValue 0 (adjust_moving_image_y w)) w)
      = adjust_moving_image_x w ∧
    adjust_moving_image_rotate
      (change_y (setValue 0 (adjust_moving_image_y w)) w)
      = adjust_moving_image_rotate w ∧
    emitted (change_y (setValue 0 (adjust_moving_image_y w)) w)
      = (emitted w ++ adj)%list ∧
    length adj = (if (0 =? value (adjust_moving_image_y w))%Z then 0 else 1) ∧
    Forall (λ s, is_reset s = false) adj.
Proof.
  intros H. rewrite setValue_zero by done. unfold change_y. cbn [fst snd].
  destruct (0 =? value (adjust_moving_image_y w))%Z; cbn [negb].
  - exists []. cbn. by rewrite app_nil_r.
  - eexists [_]. cbn. repeat split; by repeat constructor.
Qed.

Lemma change_rotate_zero w :
  (minimum (adjust_moving_image_rotate w) ≤ 0
   ≤ maximum (adjust_moving_image_rotate w))%Z →
  ∃ adj,
    value (adjust_moving_image_rotate
             (change_rotate (setValue 0 (adjust_moving_image_rotate w)) w))
      = 0%Z ∧
    adjust_moving_image_x
      (change_rotate (setValue 0 (adjust_moving_image_rotate w)) w)
      = adjust_moving_image_x w ∧
    adjust_moving_image_y
      (change_rotate (setValue 0 (adjust_moving_image_rotate w)) w)
      = adjust_moving_image_y w ∧
    emitted (change_rotate (setValue 0 (adjust_moving_image_rotate w)) w)
      = (emitted w ++ adj)%list ∧
    length adj
      = (if (0 =? value (adjust_moving_image_rotate w))%Z then 0 else 1) ∧
    Forall (λ s, is_reset s = false) adj.
Proof.
  intros H. rewrite setValue_zero by done. unfold change_rotate. cbn [fst snd].
  destruct (0 =? value (adjust_moving_image_rotate w))%Z; cbn [negb].
  - exists []. cbn. by rewrite app_nil_r.
  - eexists [_]. cbn. repeat split; by repeat constructor.
Qed.

(** What a click on the reset button does to a form whose boxes have
    their ranges. *)
Lemma reset_click w :
  configured w →
  value (adjust_moving_image_x (_on_reset_image_button_click w)) = 0%Z ∧
  value (adjust_moving_image_y (_on_reset_image_button_click w)) = 0%Z ∧
  value (adjust_moving_image_rotate (_on_reset_image_button_click w)) = 0%Z ∧
  ∃ adjustments,
    emitted (_on_reset_image_button_click w)
      = (emitted w ++ adjustments ++ [reset_image_signal])%list ∧
    length adjustments
      = (if (0 =? value (adjust_moving_image_x w))%Z then 0 else 1)
        + (if (0 =? value (adjust_moving_image_y w))%Z then 0 else 1)
        + (if (0 =? value (adjust_moving_image_rotate w))%Z then 0 else 1) ∧
    Forall (λ s, is_reset s = false) adjustments.
Proof.
  intros [Hxl Hxh _ Hyl Hyh _ Hrl Hrh _ _].
  unfold _on_reset_image_button_click.
  destruct (change_x_zero w) as (a1 & Hx1 & Hy1 & Hr1 & He1 & Hn1 & Hf1);
    [rewrite Hxl, Hxh; lia|].
  set (w1 := change_x _ w) in *.
  destruct (change_y_zero w1) as (a2 & Hy2 & Hx2 & Hr2 & He2 & Hn2 & Hf2);
    [rewrite Hy1, Hyl, Hyh; lia|].
  set (w2 := change_y _ w1) in *.
  destruct (change_rotate_zero w2) as (a3 & Hr3 & Hx3 & Hy3 & He3 & Hn3 & Hf3);
    [rewrite Hr2, Hr1, Hrl, Hrh; lia|].
  set (w3 := change_rotate _ w2) in *.
  cbn [emit adjust_moving_image_x adjust_moving_image_y
       adjust_moving_image_rotate emitted].
  rewrite Hx3, Hx2, Hx1, Hy3, Hy2, Hr3.
  repeat split; try done.
  exists (a1 ++ a2 ++ a3)%list.
  rewrite He3, He2, He1, !length_app, Hn1, Hn2, Hn3, Hy1, Hr2, Hr1.
  repeat split.
  - by rewrite <- !app_assoc.
  - lia.
  - by rewrite !Forall_app.
Qed.

Lemma reset_synced w :
  configured w → synced (_on_reset_image_button_click w).
Proof.
  intros Hc. destruct (reset_click w Hc) as (Hx & Hy & Hr & adj & Hem & _).
  unfold synced. rewrite Hx, Hy, Hr, Hem, app_assoc.
  by rewrite listener_view_snoc.
Qed.

Lemma init_synced : synced init.
Proof. reflexivity. Qed.

Lemma perform_synced w a : sound w → synced w → synced (perform w a).
Proof.
  intros [Hc _] Hs. destruct a; cbn [perform]; unfold stepBy;
    auto using change_x_synced, change_y_synced, change_rotate_synced,
               reset_synced.
Qed.

Lemma session_synced actions : synced (session actions).
Proof.
  unfold session.
  assert (H : ∀ w, sound w → synced w →
              synced (foldl perform w actions)).
  { induction actions as [|a actions IH]; intros w Hs Hy; [done|].
    cbn. apply IH; [by apply perform_sound | by apply perform_synced]. }
  apply H; [apply init_sound | apply init_synced].
Qed.

(** X21.  A listener that starts from zeros, takes the payload of every
    adjustment signal and goes back to zeros on a reset signal always
    holds the values the three boxes show, after any sequence of edits,
    steps and resets. *)
Theorem listener_follows_form (actions : list Action) :
  listener_view (emitted (session actions))
  = (value (adjust_moving_image_x (session actions)),
     value (adjust_moving_image_y (session actions)),
     value (adjust_moving_image_rotate (session actions))).
Proof. apply session_synced. Qed.

(** X22.  A click on the reset button, after any session, leaves the three
    boxes at zero and emits one adjustment signal for each box that was
    not at zero, followed by the reset signal; a form already at zero
    emits the reset signal alone. *)
Theorem reset_emits_per_changed_box (actions : list Action) :
  value (adjust_moving_image_x (perform (session actions) ClickReset)) = 0%Z ∧
  value (adjust_moving_image_y (perform (session actions) ClickReset)) = 0%Z ∧
  value (adjust_moving_image_rotate (perform (session actions) ClickReset))
    = 0%Z ∧
  ∃ adjustments,
    emitted (perform (session actions) ClickReset)
      = (emitted (session actions) ++ adjustments ++ [reset_image_signal])%list ∧
    length adjustments =
      (if (0 =? value (adjust_moving_image_x (session actions)))%Z
       then 0 else 1)
      + (if (0 =? value (adjust_moving_image_y (session actions)))%Z
         then 0 else 1)
      + (if (0 =? value (adjust_moving_image_rotate (session actions)))%Z
         then 0 else 1) ∧
    Forall (λ s, is_reset s = false) adjustments.
Proof.
  destruct (session_sound actions) as [Hc _].
  exact (reset_click (session actions) Hc).
Qed.

Lemma setValue_again v box :
  setValue v (setValue v box).1 = ((setValue v box).1, false).
Proof.
  unfold setValue. cbn [fst minimum maximum singleStep value].
  by rewrite Z.eqb_refl.
Qed.

Lemma change_x_again v w :
  change_x (setValue v (adjust_moving_image_x
                          (change_x (setValue v (adjust_moving_image_x w)) w)))
    (change_x (setValue v (adjust_moving_image_x w)) w)
  = change_x (setValue v (adjust_moving_image_x w)) w.
Proof.
  set (w' := change_x _ w).
  assert (Hx : adjust_moving_image_x w' = (setValue v (adjust_moving_image_x w)).1)
    by (unfold w', change_x; by destruct (setValue v _).2).
  rewrite Hx, setValue_again. unfold change_x. cbn [fst snd].
  rewrite <- Hx. by destruct w'.
Qed.

Lemma change_y_again v w :
  change_y (setValue v (adjust_moving_image_y
                          (change_y (setValue v (adjust_moving_image_y w)) w)))
    (change_y (setValue v (adjust_moving_image_y w)) w)
  = change_y (setValue v (adjust_moving_image_y w)) w.
Proof.
  set (w' := change_y _ w).
  assert (Hy : adjust_moving_image_y w' = (setValue v (adjust_moving_image_y w)).1)
    by (unfold w', change_y; by destruct (setValue v _).2).
  rewrite Hy, setValue_again. unfold change_y. cbn [fst snd].
  rewrite <- Hy. by destruct w'.
Qed.

Lemma change_rotate_again v w :
  change_rotate
    (setValue v (adjust_moving_image_rotate
                   (change_rotate (setValue v (adjust_moving_image_rotate w)) w)))
    (change_rotate (setValue v (adjust_moving_image_rotate w)) w)
  = change_rotate (setValue v (adjust_moving_image_rotate w)) w.
Proof.
  set (w' := change_rotate _ w).
  assert (Hr : adjust_moving_image_rotate w'
               = (setValue v (adjust_moving_image_rotate w)).1)
    by (unfold w', change_rotate; by destruct (setValue v _).2).
  rewrite Hr, setValue_again. unfold change_rotate. cbn [fst snd].
  rewrite <- Hr. by destruct w'.
Qed.

(** X23.  Entering the same value into a box twice is entering it once:
    the second edit changes nothing and emits nothing, whatever the
    value and the state of the form. *)
Theorem edit_twice_is_edit_once (w : AdjustMovingImageView) (a : Action) :
  match a with
  | EditX _ | EditY _ | EditRotate _ => perform (perform w a) a = perform w a
  | _ => True
  end.
Proof.
  destruct a as [v|v|v| | | |]; try exact I; cbn [perform].
  - apply change_x_again.
  - apply change_y_again.
  - apply change_rotate_again.
Qed.

Lemma perform_resets (w : AdjustMovingImageView) (a : Action) :
  filter (λ s, is_reset s = true) (emitted (perform w a))
  = (filter (λ s, is_reset s = true) (emitted w)
       ++ (if is_click a then [reset_image_signal] else []))%list.
Proof.
  assert (Hx : ∀ r w0, filter (λ s, is_reset s = true) (emitted (change_x r w0))
                       = filter (λ s, is_reset s = true) (emitted w0)).
  { intros [b []] w0; unfold change_x; cbn; [|done].
    by rewrite filter_app, app_nil_r. }
  assert (Hy : ∀ r w0, filter (λ s, is_reset s = true) (emitted (change_y r w0))
                       = filter (λ s, is_reset s = true) (emitted w0)).
  { intros [b []] w0; unfold change_y; cbn; [|done].
    by rewrite filter_app, app_nil_r. }
  assert (Hr : ∀ r w0,
             filter (λ s, is_reset s = true) (emitted (change_rotate r w0))
             = filter (λ s, is_reset s = true) (emitted w0)).
  { intros [b []] w0; unfold change_rotate; cbn; [|done].
    by rewrite filter_app, app_nil_r. }
  destruct a; cbn [perform is_click]; rewrite ?app_nil_r; try done.
  unfold _on_reset_image_button_click. cbn [emit emitted].
  by rewrite filter_app, Hr, Hy, Hx.
Qed.

(** X24.  The form emits exactly one reset signal per click on the reset
    button: in any session there are as many reset signals as clicks. *)
Theorem one_reset_signal_per_click (actions : list Action) :
  length (filter (λ s, is_reset s = true) (emitted (session actions)))
  = length (filter (λ a, is_click a = true) actions).
Proof.
  unfold session.
  assert (H : ∀ w,
    length (filter (λ s, is_reset s = true) (emitted (foldl perform w actions)))
    = length (filter (λ s, is_reset s = true) (emitted w))
      + length (filter (λ a, is_click a = true) actions)).
  { induction actions as [|a actions IH]; intros w; cbn [foldl]; [cbn; lia|].
    rewrite IH, perform_resets, length_app, filter_cons.
    destruct a; cbn [is_click length];
      destruct (decide _) as [Hd|Hd]; try discriminate Hd;
      try (by destruct Hd); cbn [length]; lia. }
  rewrite H. cbn. lia.
Qed.

Lemma step_rotate_box w steps :
  minimum (adjust_moving_image_rotate (perform w (StepRotate steps)))
    = minimum (adjust_moving_image_rotate w) ∧
  maximum (adjust_moving_image_rotate (perform w (StepRotate steps)))
    = maximum (adjust_moving_image_rotate w) ∧
  singleStep (adjust_moving_image_rotate (perform w (StepRotate steps)))
    = singleStep (adjust_moving_image_rotate w) ∧
  value (adjust_moving_image_rotate (perform w (StepRotate steps)))
    = bound (minimum (adjust_moving_image_rotate w))
        (maximum (adjust_moving_image_rotate w))
        (value (adjust_moving_image_rotate w)
         + steps * singleStep (adjust_moving_image_rotate w)).
Proof.
  cbn [perform]. unfold stepBy, change_rotate.
  by destruct (setValue _ (adjust_moving_image_rotate w)).2.
Qed.

(** X25.  Stepping the rotation up and back down by the same number of
    steps returns to the rotation the form showed, as long as the way up
    stays within the range; each step is half a degree. *)
Theorem rotation_steps_undo (actions : list Action) (steps : Z) :
  (-36000 ≤ value (adjust_moving_image_rotate (session actions)) + steps * 50
   ≤ 36000)%Z →
  value (adjust_moving_image_rotate
           (perform (session actions) (StepRotate steps)))
  = (value (adjust_moving_image_rotate (session actions)) + steps * 50)%Z ∧
  value (adjust_moving_image_rotate
           (perform (perform (session actions) (StepRotate steps))
              (StepRotate (- steps))))
  = value (adjust_moving_image_rotate (session actions)).
Proof.
  intros Hin. destruct (session_sound actions) as [[_ _ _ _ _ _ Hl Hh Hs Hv] _].
  destruct (step_rotate_box (session actions) steps) as (Hl1 & Hh1 & Hs1 & Hv1).
  destruct (step_rotate_box (perform (session actions) (StepRotate steps))
              (- steps)) as (_ & _ & _ & Hv2).
  rewrite Hv2, Hl1, Hh1, Hs1, Hv1, Hl, Hh, Hs. unfold bound. lia.
Qed.

End ViewMore.

Lemma rotation_steps_undo_witness :
  View.value (View.adjust_moving_image_rotate
                (View.perform (View.session [View.EditRotate 1250])
                   (View.StepRotate 3)))
  = 1400%Z.
Proof.
  destruct (rotation_steps_undo [View.EditRotate 1250] 3) as [H _].
  - vm_compute. split; discriminate.
  - rewrite H. reflexivity.
Defined.
